(** * pretty-error: the response interceptor and its status-range filter

    A shallow embedding of the Go packages [pretty_error] (the plugin and its
    internal [codeCatcher]) and [httputil] (the exported [CodeCatcher],
    [SupportsProcessing], [CopyHeaders]), followed by the properties of the
    interceptor state machine.

    Conventions
    - Go [int] is [Z]; status codes are only compared, never computed with.
    - [[]byte] is [list byte]; [string] is [string]; [error] is
      [option error], [None] being [nil].
    - [http.Header] is [map[string][]string]: a [gmap string (list string)].
      Header maps are reference values, so they live in a heap and are named
      by locations; [nil] is [None].
    - every method takes the receiver and the world (heap, wrapped sink, log)
      and returns its results with the new receiver and world. *)

From Stdlib Require Import ZArith String List Lia.
From Stdlib.Strings Require Import Byte.
From stdpp Require Import gmap strings list fin_maps.

Local Open Scope string_scope.
Local Open Scope Z_scope.

(** ** Go library values the packages use *)

Abbreviation http_Header := (gmap string (list string)).
Abbreviation loc := positive.
Abbreviation Heap := (gmap loc http_Header).
Abbreviation error := string.

(** [h.Get(key)] of net/http: the first value stored under the key, or the
    empty string.  Every key the packages pass ("Upgrade",
    "Content-Encoding", "Content-Type", "Set-Cookie") is already in
    canonical MIME form, so the canonicalisation of the key is the
    identity. *)
Definition Header_Get (h : http_Header) (key : string) : string :=
  match h !! key with
  | Some (v :: _) => v
  | _ => ""
  end.

(** [strings.Contains(s, substr)]. *)
Fixpoint Contains (s substr : string) : bool :=
  String.prefix substr s
  || match s with
     | EmptyString => false
     | String _ s' => Contains s' substr
     end.

(** The map a location points to; [make(http.Header)] allocates an empty
    map at an unused location. *)
Definition deref (h : Heap) (l : loc) : http_Header := default ∅ (h !! l).

Definition make_http_Header (h : Heap) : loc * Heap :=
  let l := fresh (dom h) in (l, <[l := ∅]> h).

(** ** log.Printf *)

Inductive LogArg :=
| ArgInt (n : Z)
| ArgErr (e : error)
| ArgHeader (h : http_Header)
| ArgCatcher (code : Z) (caught sent : bool).

Definition LogEntry : Type := string * list LogArg.

(** ** The wrapped response sink

    [http.ResponseWriter] is an interface; the sink is modelled by what it
    is handed: the status codes passed to its [WriteHeader], the bytes
    passed to its [Write], the calls of its optional [Flush] and [Hijack].
    [rw_write] is what its [Write] answers and [rw_hijack] the error its
    [Hijack] answers, when it has one; [rw_type] is the name of its
    dynamic type, as [%T] prints it. *)
Record ResponseWriter := {
  rw_header : loc;
  rw_codes : list Z;
  rw_written : list byte;
  rw_write : list byte -> Z * option error;
  rw_flusher : bool;
  rw_flushes : nat;
  rw_hijacker : bool;
  rw_hijacks : nat;
  rw_hijack : option error;
  rw_type : string;
}.

Record World := {
  heap : Heap;
  sink : ResponseWriter;
  logs : list LogEntry;
}.

Definition set_heap (h : Heap) (w : World) : World :=
  {| heap := h; sink := sink w; logs := logs w |}.

Definition set_sink (s : ResponseWriter) (w : World) : World :=
  {| heap := heap w; sink := s; logs := logs w |}.

Definition log_Printf (format : string) (args : list LogArg) (w : World) : World :=
  {| heap := heap w; sink := sink w; logs := (logs w ++ [(format, args)])%list |}.

Definition sink_Header (w : World) : loc := rw_header (sink w).

Definition sink_headers (w : World) : http_Header := deref (heap w) (sink_Header w).

Definition sink_WriteHeader (code : Z) (w : World) : World :=
  let s := sink w in
  set_sink {| rw_header := rw_header s; rw_codes := (rw_codes s ++ [code])%list;
              rw_written := rw_written s; rw_write := rw_write s;
              rw_flusher := rw_flusher s; rw_flushes := rw_flushes s;
              rw_hijacker := rw_hijacker s; rw_hijacks := rw_hijacks s;
              rw_hijack := rw_hijack s; rw_type := rw_type s |} w.

Definition sink_Write (buf : list byte) (w : World) : (Z * option error) * World :=
  let s := sink w in
  (rw_write s buf,
   set_sink {| rw_header := rw_header s; rw_codes := rw_codes s;
               rw_written := (rw_written s ++ buf)%list; rw_write := rw_write s;
               rw_flusher := rw_flusher s; rw_flushes := rw_flushes s;
               rw_hijacker := rw_hijacker s; rw_hijacks := rw_hijacks s;
               rw_hijack := rw_hijack s; rw_type := rw_type s |} w).

(** [if flusher, ok := w.(http.Flusher); ok { flusher.Flush() }] *)
Definition sink_Flush (w : World) : World :=
  let s := sink w in
  if rw_flusher s then
    set_sink {| rw_header := rw_header s; rw_codes := rw_codes s;
                rw_written := rw_written s; rw_write := rw_write s;
                rw_flusher := rw_flusher s; rw_flushes := S (rw_flushes s);
                rw_hijacker := rw_hijacker s; rw_hijacks := rw_hijacks s;
                rw_hijack := rw_hijack s; rw_type := rw_type s |} w
  else w.

(** [if hj, ok := w.(http.Hijacker); ok { return hj.Hijack() }], and
    [fmt.Errorf("%T is not a http.Hijacker", w)] otherwise.  Of the three
    results of [Hijack] the error is kept. *)
Definition sink_Hijack (w : World) : option error * World :=
  let s := sink w in
  if rw_hijacker s then
    (rw_hijack s,
     set_sink {| rw_header := rw_header s; rw_codes := rw_codes s;
                 rw_written := rw_written s; rw_write := rw_write s;
                 rw_flusher := rw_flusher s; rw_flushes := rw_flushes s;
                 rw_hijacker := rw_hijacker s; rw_hijacks := S (rw_hijacks s);
                 rw_hijack := rw_hijack s; rw_type := rw_type s |} w)
  else (Some (rw_type s ++ " is not a http.Hijacker")%string, w).

(** ** Handlers

    What a handler does with the writer it is given: a tree of calls, each
    continuation choosing the next call from the answer to the last. *)
Inductive Op :=
| OpHeader (f : http_Header -> http_Header)   (* w.Header(), then any update of the map *)
| OpWriteHeader (code : Z)
| OpWrite (buf : list byte)
| OpFlush
| OpHijack.

Inductive Answer :=
| AHeader (h : http_Header)
| AUnit
| AWrite (n : Z) (err : option error)
| AHijack (err : option error).

Section Programs.
Context {O A : Type}.

Inductive Prog :=
| Done
| Do (o : O) (k : A -> Prog).

Context {S : Type} (step : O -> S -> A * S).

Fixpoint run (p : Prog) (s : S) : S :=
  match p with
  | Done => s
  | Do o k => let '(a, s') := step o s in run (k a) s'
  end.
End Programs.
Arguments Prog : clear implicits.

(** The handler is given the sink itself. *)
Definition sink_step (o : Op) (w : World) : Answer * World :=
  match o with
  | OpHeader f =>
      let l := sink_Header w in
      let m := f (deref (heap w) l) in
      (AHeader m, set_heap (<[l := m]> (heap w)) w)
  | OpWriteHeader c => (AUnit, sink_WriteHeader c w)
  | OpWrite buf => let '((n, err), w') := sink_Write buf w in (AWrite n err, w')
  | OpFlush => (AUnit, sink_Flush w)
  | OpHijack => let '(err, w') := sink_Hijack w in (AHijack err, w')
  end.

(** ** package httputil, shared functions *)

Record Request := {
  Method : string;
  req_Header : http_Header;
}.

Definition SupportsProcessing (request : Request) : bool :=
  if negb (String.eqb (Method request) "GET") then false
  else if Contains (Header_Get (req_Header request) "Upgrade") "websocket" then false
  else true.

(** [for k, vv := range src { dst[k] = append(dst[k], vv...) }] *)
Definition CopyHeaders (dst src : http_Header) : http_Header :=
  map_fold (fun k vv d => <[k := (default [] (d !! k) ++ vv)%list]> d) dst src.

(** Modelled from the spec: the declaration of [types.HTTPCodeRanges] is not
    among the sources; its elements are indexed [block[0]] and [block[1]],
    the spec's ordered pair [(low, high)]. *)
Abbreviation HTTPCodeRanges := (list (Z * Z)).

(** ** package pretty_error: the internal interceptor *)

Module PrettyError.

(** [codeCatcher].  Its [responseWriter] field is the sink of the world. *)
Record codeCatcher := {
  headerMap : option loc;
  code : Z;
  httpCodeRanges : HTTPCodeRanges;
  caughtFilteredCode : bool;
  headersSent : bool;
}.

Definition set_headerMap (m : option loc) (cc : codeCatcher) : codeCatcher :=
  {| headerMap := m; code := code cc; httpCodeRanges := httpCodeRanges cc;
     caughtFilteredCode := caughtFilteredCode cc; headersSent := headersSent cc |}.

Definition set_code (c : Z) (cc : codeCatcher) : codeCatcher :=
  {| headerMap := headerMap cc; code := c; httpCodeRanges := httpCodeRanges cc;
     caughtFilteredCode := caughtFilteredCode cc; headersSent := headersSent cc |}.

Definition set_caughtFilteredCode (b : bool) (cc : codeCatcher) : codeCatcher :=
  {| headerMap := headerMap cc; code := code cc; httpCodeRanges := httpCodeRanges cc;
     caughtFilteredCode := b; headersSent := headersSent cc |}.

Definition set_headersSent (b : bool) (cc : codeCatcher) : codeCatcher :=
  {| headerMap := headerMap cc; code := code cc; httpCodeRanges := httpCodeRanges cc;
     caughtFilteredCode := caughtFilteredCode cc; headersSent := b |}.

(** [newCodeCatcher].  The [codeCatcherWithCloseNotify] it returns for a
    sink that is a [http.CloseNotifier] embeds this same [*codeCatcher]
    and adds [CloseNotify] only. *)
Definition newCodeCatcher (ranges : HTTPCodeRanges) (w : World) : codeCatcher * World :=
  let '(l, h) := make_http_Header (heap w) in
  ({| headerMap := Some l;
      code := 200;
      httpCodeRanges := ranges;
      caughtFilteredCode := false;
      headersSent := false |},
   set_heap h w).

Definition Header (cc : codeCatcher) (w : World) : loc * codeCatcher * World :=
  match headerMap cc with
  | None =>
      let '(l, h) := make_http_Header (heap w) in
      (l, set_headerMap (Some l) cc, set_heap h w)
  | Some l => (l, cc, w)
  end.

Definition getCode (cc : codeCatcher) : Z := code cc.

Definition isFilteredCode (cc : codeCatcher) : bool := caughtFilteredCode cc.

(** The loop of [WriteHeader] over [cc.httpCodeRanges]; [Some] is its
    [return]. *)
Fixpoint catchLoop (blocks : HTTPCodeRanges) (cc : codeCatcher) : option codeCatcher :=
  match blocks with
  | [] => None
  | block :: blocks' =>
      if (code cc >=? block.1) && (code cc <=? block.2)
      then Some (set_caughtFilteredCode true cc)
      else catchLoop blocks' cc
  end.

Definition WriteHeader (c : Z) (cc : codeCatcher) (w : World) : codeCatcher * World :=
  if headersSent cc || caughtFilteredCode cc then (cc, w)
  else
    let cc := set_code c cc in
    match catchLoop (httpCodeRanges cc) cc with
    | Some cc => (cc, w)
    | None =>
        let dst := sink_Header w in
        let '(src, cc, w) := Header cc w in
        let w := set_heap (<[dst := CopyHeaders (deref (heap w) dst) (deref (heap w) src)]> (heap w)) w in
        let w := sink_WriteHeader (code cc) w in
        (set_headersSent true cc, w)
    end.

Definition Write (buf : list byte) (cc : codeCatcher) (w : World)
  : (Z * option error) * codeCatcher * World :=
  let '(cc, w) := WriteHeader (code cc) cc w in
  if caughtFilteredCode cc then ((Z.of_nat (length buf), None), cc, w)
  else let '(r, w) := sink_Write buf w in (r, cc, w).

Definition Hijack (cc : codeCatcher) (w : World) : option error * codeCatcher * World :=
  let '(err, w) := sink_Hijack w in (err, cc, w).

Definition Flush (cc : codeCatcher) (w : World) : codeCatcher * World :=
  let '(cc, w) := WriteHeader (code cc) cc w in
  (cc, sink_Flush w).

(** The handler is given the catcher. *)
Definition step (o : Op) (s : codeCatcher * World) : Answer * (codeCatcher * World) :=
  let '(cc, w) := s in
  match o with
  | OpHeader f =>
      let '(l, cc, w) := Header cc w in
      let m := f (deref (heap w) l) in
      (AHeader m, (cc, set_heap (<[l := m]> (heap w)) w))
  | OpWriteHeader c => (AUnit, WriteHeader c cc w)
  | OpWrite buf => let '((n, err), cc, w) := Write buf cc w in (AWrite n err, (cc, w))
  | OpFlush => (AUnit, Flush cc w)
  | OpHijack => let '(err, cc, w) := Hijack cc w in (AHijack err, (cc, w))
  end.

(** [rewrite] and [rewriteBody].  A compiled [*regexp.Regexp] is kept as
    its source text; [ServeHTTP] reads [next] and [httpCodeRanges] only. *)
Record rewrite := {
  regex : string;
  replacement : list byte;
}.

Record rewriteBody := {
  name : string;
  next : Request -> Prog Op Answer;
  rewrites : list rewrite;
  lastModified : bool;
  rb_httpCodeRanges : HTTPCodeRanges;
}.

Definition ServeHTTP (bodyRewrite : rewriteBody) (req : Request) (w : World) : World :=
  if negb (SupportsProcessing req) then run sink_step (next bodyRewrite req) w
  else
    let w := log_Printf "Before catcher" [] w in
    let '(catcher, w) := newCodeCatcher (rb_httpCodeRanges bodyRewrite) w in
    let w := log_Printf "Catcher: %v"
               [ArgCatcher (code catcher) (caughtFilteredCode catcher) (headersSent catcher)] w in
    let '(catcher, w) := run step (next bodyRewrite req) (catcher, w) in
    let w := log_Printf "After serve" [] w in
    let w := log_Printf "Status: %d" [ArgInt (getCode catcher)] w in
    if negb (isFilteredCode catcher) then w
    else log_Printf "Status: %d" [ArgInt (getCode catcher)] w.

End PrettyError.

(** ** package httputil: the exported interceptor *)

(** Package [compressutil] is not among the sources; its two functions are
    taken as parameters.  [Decode] reads from the [*bytes.Buffer] it is
    given, so it also returns what is left in it. *)
Record Compressutil := {
  Decode : list byte -> string -> (list byte * option error) * list byte;
  Encode : list byte -> string -> list byte * option error;
}.

Module Httputil.

(** [CodeCatcher].  The embedded [http.ResponseWriter] is the sink of the
    world. *)
Record CodeCatcher := {
  buffer : list byte;
  lastModified : bool;
  wroteHeader : bool;
  headerMap : option loc;
  code : Z;
  httpCodeRanges : HTTPCodeRanges;
  caughtFilteredCode : bool;
  headersSent : bool;
}.

Definition set_buffer (b : list byte) (cc : CodeCatcher) : CodeCatcher :=
  {| buffer := b; lastModified := lastModified cc; wroteHeader := wroteHeader cc;
     headerMap := headerMap cc; code := code cc; httpCodeRanges := httpCodeRanges cc;
     caughtFilteredCode := caughtFilteredCode cc; headersSent := headersSent cc |}.

Definition set_lastModified (b : bool) (cc : CodeCatcher) : CodeCatcher :=
  {| buffer := buffer cc; lastModified := b; wroteHeader := wroteHeader cc;
     headerMap := headerMap cc; code := code cc; httpCodeRanges := httpCodeRanges cc;
     caughtFilteredCode := caughtFilteredCode cc; headersSent := headersSent cc |}.

Definition set_headerMap (m : option loc) (cc : CodeCatcher) : CodeCatcher :=
  {| buffer := buffer cc; lastModified := lastModified cc; wroteHeader := wroteHeader cc;
     headerMap := m; code := code cc; httpCodeRanges := httpCodeRanges cc;
     caughtFilteredCode := caughtFilteredCode cc; headersSent := headersSent cc |}.

Definition set_code (c : Z) (cc : CodeCatcher) : CodeCatcher :=
  {| buffer := buffer cc; lastModified := lastModified cc; wroteHeader := wroteHeader cc;
     headerMap := headerMap cc; code := c; httpCodeRanges := httpCodeRanges cc;
     caughtFilteredCode := caughtFilteredCode cc; headersSent := headersSent cc |}.

Definition set_caughtFilteredCode (b : bool) (cc : CodeCatcher) : CodeCatcher :=
  {| buffer := buffer cc; lastModified := lastModified cc; wroteHeader := wroteHeader cc;
     headerMap := headerMap cc; code := code cc; httpCodeRanges := httpCodeRanges cc;
     caughtFilteredCode := b; headersSent := headersSent cc |}.

Definition set_headersSent (b : bool) (cc : CodeCatcher) : CodeCatcher :=
  {| buffer := buffer cc; lastModified := lastModified cc; wroteHeader := wroteHeader cc;
     headerMap := headerMap cc; code := code cc; httpCodeRanges := httpCodeRanges cc;
     caughtFilteredCode := caughtFilteredCode cc; headersSent := b |}.

(** [NewCodeCatcher]; as in package pretty_error, the
    [CodeCatcherWithCloseNotify] variant adds [CloseNotify] only. *)
Definition NewCodeCatcher (ranges : HTTPCodeRanges) (w : World) : CodeCatcher * World :=
  let '(l, h) := make_http_Header (heap w) in
  ({| buffer := [];
      lastModified := false;
      wroteHeader := false;
      headerMap := Some l;
      code := 200;
      httpCodeRanges := ranges;
      caughtFilteredCode := false;
      headersSent := false |},
   set_heap h w).

Definition getHeader (headerName : string) (w : World) : string :=
  Header_Get (sink_headers w) headerName.

Definition LogHeaders (w : World) : World :=
  log_Printf "Error Headers: %v" [ArgHeader (sink_headers w)] w.

Definition getContentEncoding (w : World) : string := getHeader "Content-Encoding" w.

Definition getContentType (w : World) : string := getHeader "Content-Type" w.

Definition getSetCookie (w : World) : string := getHeader "Set-Cookie" w.

Definition SupportsWriting (w : World) : bool :=
  negb (Contains (getSetCookie w) "XSRF-TOKEN").

(** The method [SupportsProcessing] of [CodeCatcher], as opposed to the
    function of the package. *)
Definition CodeCatcher_SupportsProcessing (w : World) : bool :=
  let contentType := getContentType w in
  if negb (String.eqb contentType "") && negb (Contains contentType "text") then false
  else
    let encoding := getContentEncoding w in
    if String.eqb encoding "gzip" then true
    else if String.eqb encoding "deflate" then true
    else if String.eqb encoding "identity" then true
    else if String.eqb encoding "" then true
    else false.

Definition SetLastModified (value : bool) (cc : CodeCatcher) : CodeCatcher :=
  set_lastModified value cc.

Definition Header (cc : CodeCatcher) (w : World) : loc * CodeCatcher * World :=
  match headerMap cc with
  | None =>
      let '(l, h) := make_http_Header (heap w) in
      (l, set_headerMap (Some l) cc, set_heap h w)
  | Some l => (l, cc, w)
  end.

Definition GetCode (cc : CodeCatcher) : Z := code cc.

Definition IsFilteredCode (cc : CodeCatcher) : bool := caughtFilteredCode cc.

Fixpoint catchLoop (blocks : HTTPCodeRanges) (cc : CodeCatcher) : option CodeCatcher :=
  match blocks with
  | [] => None
  | block :: blocks' =>
      if (code cc >=? block.1) && (code cc <=? block.2)
      then Some (set_caughtFilteredCode true cc)
      else catchLoop blocks' cc
  end.

Definition WriteHeader (c : Z) (cc : CodeCatcher) (w : World) : CodeCatcher * World :=
  if headersSent cc || caughtFilteredCode cc then (cc, w)
  else
    let cc := set_code c cc in
    match catchLoop (httpCodeRanges cc) cc with
    | Some cc => (cc, w)
    | None =>
        let dst := sink_Header w in
        let '(src, cc, w) := Header cc w in
        let w := set_heap (<[dst := CopyHeaders (deref (heap w) dst) (deref (heap w) src)]> (heap w)) w in
        let w := sink_WriteHeader (code cc) w in
        (set_headersSent true cc, w)
    end.

(** The test of [caughtFilteredCode] is commented out in this [Write]. *)
Definition Write (buf : list byte) (cc : CodeCatcher) (w : World)
  : (Z * option error) * CodeCatcher * World :=
  let '(cc, w) := WriteHeader (code cc) cc w in
  let '(r, w) := sink_Write buf w in (r, cc, w).

Definition Hijack (cc : CodeCatcher) (w : World) : option error * CodeCatcher * World :=
  let '(err, w) := sink_Hijack w in (err, cc, w).

Definition Flush (cc : CodeCatcher) (w : World) : CodeCatcher * World :=
  let '(cc, w) := WriteHeader (code cc) cc w in
  (cc, sink_Flush w).

Definition GetContent (cu : Compressutil) (cc : CodeCatcher) (w : World)
  : (list byte * option error) * CodeCatcher * World :=
  let encoding := getContentEncoding w in
  let '(r, rest) := Decode cu (buffer cc) encoding in
  (r, set_buffer rest cc, w).

Definition SetContent (cu : Compressutil) (data : list byte) (cc : CodeCatcher) (w : World)
  : CodeCatcher * World :=
  let encoding := getContentEncoding w in
  let '(bodyBytes, _) := Encode cu data encoding in
  let '(cc, w) := if negb (wroteHeader cc) then WriteHeader 200 cc w else (cc, w) in
  let '((_, err), w) := sink_Write bodyBytes w in
  match err with
  | Some e => (cc, LogHeaders (log_Printf "unable to write rewriten body: %v" [ArgErr e] w))
  | None => (cc, w)
  end.

(** What a caller of the exported interceptor can do with it: the calls
    of a handler, and the methods of [ResponseInterceptor] beside them. *)
Inductive XOp :=
| XWriter (o : Op)
| XGetBuffer (f : list byte -> list byte)   (* GetBuffer(), then any update of it *)
| XGetContent
| XSetContent (data : list byte)
| XSetLastModified (value : bool)
| XLogHeaders.

Inductive XAnswer :=
| XA (a : Answer)
| XBuffer (b : list byte)
| XContent (r : list byte * option error)
| XUnit.

Definition step (o : Op) (s : CodeCatcher * World) : Answer * (CodeCatcher * World) :=
  let '(cc, w) := s in
  match o with
  | OpHeader f =>
      let '(l, cc, w) := Header cc w in
      let m := f (deref (heap w) l) in
      (AHeader m, (cc, set_heap (<[l := m]> (heap w)) w))
  | OpWriteHeader c => (AUnit, WriteHeader c cc w)
  | OpWrite buf => let '((n, err), cc, w) := Write buf cc w in (AWrite n err, (cc, w))
  | OpFlush => (AUnit, Flush cc w)
  | OpHijack => let '(err, cc, w) := Hijack cc w in (AHijack err, (cc, w))
  end.

Definition xstep (cu : Compressutil) (o : XOp) (s : CodeCatcher * World)
  : XAnswer * (CodeCatcher * World) :=
  match o with
  | XWriter o => let '(a, s) := step o s in (XA a, s)
  | XGetBuffer f => let b := f (buffer s.1) in (XBuffer b, (set_buffer b s.1, s.2))
  | XGetContent => let '(r, cc, w) := GetContent cu s.1 s.2 in (XContent r, (cc, w))
  | XSetContent data => (XUnit, SetContent cu data s.1 s.2)
  | XSetLastModified value => (XUnit, (SetLastModified value s.1, s.2))
  | XLogHeaders => (XUnit, (s.1, LogHeaders s.2))
  end.

End Httputil.

(** * Vocabulary of the properties *)

(** ** States of an interceptor *)

(** The test of one block in the loop of [WriteHeader]. *)
Definition inRange (c : Z) (block : Z * Z) : bool := (c >=? block.1) && (c <=? block.2).

(** OPEN: no transition yet.  FILTERED is [caughtFilteredCode], COMMITTED
    is [headersSent]. *)
Definition PrettyError_open (cc : PrettyError.codeCatcher) : Prop :=
  PrettyError.headersSent cc = false /\ PrettyError.caughtFilteredCode cc = false.

Definition Httputil_open (cc : Httputil.CodeCatcher) : Prop :=
  Httputil.headersSent cc = false /\ Httputil.caughtFilteredCode cc = false.

(** The content of the private header buffer; a [nil] buffer has no entry. *)
Definition PrettyError_headerBuffer (cc : PrettyError.codeCatcher) (w : World) : http_Header :=
  match PrettyError.headerMap cc with
  | Some l => deref (heap w) l
  | None => ∅
  end.

Definition Httputil_headerBuffer (cc : Httputil.CodeCatcher) (w : World) : http_Header :=
  match Httputil.headerMap cc with
  | Some l => deref (heap w) l
  | None => ∅
  end.

(** The sink's header map is allocated, and the private buffer, once
    allocated, is another map. *)
Definition separate (hm : option loc) (w : World) : Prop :=
  sink_Header w ∈ dom (heap w) /\
  forall l, hm = Some l -> l ∈ dom (heap w) /\ l ≠ sink_Header w.



(** ** Handlers *)



(** ** Sinks, requests, handlers and codecs to run the code on *)

(** A sink that accepts every write, can flush and cannot be hijacked. *)
Definition ok_sink : ResponseWriter :=
  {| rw_header := 1%positive;
     rw_codes := [];
     rw_written := [];
     rw_write := fun buf => (Z.of_nat (length buf), None);
     rw_flusher := true;
     rw_flushes := 0;
     rw_hijacker := false;
     rw_hijacks := 0;
     rw_hijack := None;
     rw_type := "*httptest.ResponseRecorder" |}.

Definition ok_world : World :=
  {| heap := {[ 1%positive := ∅ ]}; sink := ok_sink; logs := [] |}.

(** The configuration ["500-599"]. *)
Definition server_errors : HTTPCodeRanges := [(500, 599)].

(** A sink that already holds a cookie, and interceptors whose buffer holds
    three more, one of them twice. *)
Definition cookie_world : World :=
  {| heap := {[ 1%positive := {[ "Set-Cookie" := ["s=0"] ]};
                2%positive := {[ "Set-Cookie" := ["a=1"; "b=2"; "a=1"] ]} ]};
     sink := ok_sink;
     logs := [] |}.

Definition cookie_catcher : PrettyError.codeCatcher :=
  {| PrettyError.headerMap := Some 2%positive;
     PrettyError.code := 200;
     PrettyError.httpCodeRanges := server_errors;
     PrettyError.caughtFilteredCode := false;
     PrettyError.headersSent := false |}.

Definition cookie_CodeCatcher : Httputil.CodeCatcher :=
  {| Httputil.buffer := [];
     Httputil.lastModified := false;
     Httputil.wroteHeader := false;
     Httputil.headerMap := Some 2%positive;
     Httputil.code := 200;
     Httputil.httpCodeRanges := server_errors;
     Httputil.caughtFilteredCode := false;
     Httputil.headersSent := false |}.


(** A handler that sets a header, commits 200, and stops. *)
Definition commits : Prog Op Answer :=
  Do (OpHeader (fun h => <["Content-Type" := ["text/plain"]]> h))
     (fun _ => Do (OpWriteHeader 200) (fun _ => Done)).

Definition late_header (h : http_Header) : http_Header := <["X-Late" := ["1"]]> h.

Definition oops : list byte := ["o"; "o"; "p"; "s"]%byte.

(** A handler that, after a 503, sets another status, flushes and writes. *)
Definition after_503 : Prog Op Answer :=
  Do (OpWriteHeader 200) (fun _ => Do OpFlush (fun _ => Do (OpWrite oops) (fun _ => Done))).

Definition websocket_request : Request :=
  {| Method := "GET"; req_Header := {[ "Upgrade" := ["websocket"] ]} |}.

(** A plugin whose next handler answers 101 and writes a frame. *)
Definition upgrades : PrettyError.rewriteBody :=
  {| PrettyError.name := "pretty-error";
     PrettyError.next := fun _ =>
       Do (OpWriteHeader 101) (fun _ => Do (OpWrite ["w"; "s"]%byte) (fun _ => Done));
     PrettyError.rewrites := [];
     PrettyError.lastModified := false;
     PrettyError.rb_httpCodeRanges := server_errors |}.

Definition identity_codec : Compressutil :=
  {| Decode := fun b _ => ((b, None), b); Encode := fun data _ => (data, None) |}.

(** A codec that fails and returns no bytes, and one that returns no bytes
    without failing. *)
Definition failing_codec : Compressutil :=
  {| Decode := fun b _ => (([], Some "decode failed"), []);
     Encode := fun _ _ => ([], Some "encode failed") |}.

Definition empty_codec : Compressutil :=
  {| Decode := fun b _ => (([], None), []); Encode := fun _ _ => ([], None) |}.

Definition original_body : list byte := ["o"; "r"; "i"; "g"]%byte.

Definition rewritten_body : list byte := ["n"; "e"; "w"]%byte.

(** The exported interceptor after a handler answered 503, its buffer
    holding the original body. *)
Definition caught_503 : Httputil.CodeCatcher * World :=
  run (Httputil.xstep failing_codec)
      (Do (Httputil.XWriter (OpWriteHeader 503))
          (fun _ => Do (Httputil.XGetBuffer (fun _ => original_body)) (fun _ => Done)))
      (Httputil.NewCodeCatcher server_errors ok_world).

(** ** Vocabulary of the further properties *)

(** What the sink has been handed besides status codes, with its
    capabilities: the part of it that a committed interceptor passes
    through. *)
Definition sink_io (s : ResponseWriter) :=
  (rw_written s, rw_write s, rw_flusher s, rw_flushes s, rw_hijacker s, rw_hijacks s,
   rw_hijack s, rw_type s).

(** A handler that makes the header updates [fs] in order, then goes on
    as [k]. *)
Definition header_writes (fs : list (http_Header -> http_Header)) (k : Prog Op Answer)
  : Prog Op Answer :=
  foldr (fun f p => Do (OpHeader f) (fun _ => p)) k fs.

(** The interceptor and the world at the point where [ServeHTTP] has run
    the next handler on the catcher. *)
Definition served (bodyRewrite : PrettyError.rewriteBody) (req : Request) (w : World)
  : PrettyError.codeCatcher * World :=
  let w := log_Printf "Before catcher" [] w in
  let '(catcher, w) := PrettyError.newCodeCatcher (PrettyError.rb_httpCodeRanges bodyRewrite) w in
  let w := log_Printf "Catcher: %v"
             [ArgCatcher (PrettyError.code catcher) (PrettyError.caughtFilteredCode catcher)
                (PrettyError.headersSent catcher)] w in
  run PrettyError.step (PrettyError.next bodyRewrite req) (catcher, w).

(** Ranges no status lies in. *)
Definition matches_nothing (R : HTTPCodeRanges) : Prop :=
  forall c, existsb (inRange c) R = false.

(** The catcher and the bare sink, run side by side: same bytes, flushes
    and hijacks handed on, and the private buffer holding what the sink's
    header map holds when the handler writes to it directly. *)
Definition passes_through (s : PrettyError.codeCatcher * World) (d : World) : Prop :=
  separate (PrettyError.headerMap s.1) s.2
  /\ matches_nothing (PrettyError.httpCodeRanges s.1)
  /\ PrettyError.caughtFilteredCode s.1 = false
  /\ sink_io (sink s.2) = sink_io (sink d)
  /\ PrettyError_headerBuffer s.1 s.2 = sink_headers d.

(** A sink whose [Write] fails. *)
Definition broken_world : World :=
  {| heap := {[ 1%positive := ∅ ]};
     sink := {| rw_header := 1%positive;
                rw_codes := [];
                rw_written := [];
                rw_write := fun _ => (0, Some "broken pipe");
                rw_flusher := false;
                rw_flushes := 0;
                rw_hijacker := false;
                rw_hijacks := 0;
                rw_hijack := None;
                rw_type := "*httptest.ResponseRecorder" |};
     logs := [] |}.

(** A sink whose second cookie carries the token. *)
Definition xsrf_second_world : World :=
  {| heap := {[ 1%positive := {[ "Set-Cookie" := ["a=1"; "XSRF-TOKEN=x"] ]} ]};
     sink := ok_sink;
     logs := [] |}.

(** A sink with every optional capability, as the server's own writer. *)
Definition full_world : World :=
  {| heap := {[ 1%positive := ∅ ]};
     sink := {| rw_header := 1%positive;
                rw_codes := [];
                rw_written := [];
                rw_write := fun buf => (Z.of_nat (length buf), None);
                rw_flusher := true;
                rw_flushes := 0;
                rw_hijacker := true;
                rw_hijacks := 0;
                rw_hijack := None;
                rw_type := "*http.response" |};
     logs := [] |}.

(** A GET request with two Upgrade lines, the second one for a websocket. *)
Definition two_upgrades_request : Request :=
  {| Method := "GET"; req_Header := {[ "Upgrade" := ["h2c"; "websocket"] ]} |}.

(** The plugin of [upgrades], configured to catch the range 100-199. *)
Definition upgrades_101_filtered : PrettyError.rewriteBody :=
  {| PrettyError.name := "pretty-error";
     PrettyError.next := PrettyError.next upgrades;
     PrettyError.rewrites := [];
     PrettyError.lastModified := false;
     PrettyError.rb_httpCodeRanges := [(100, 199)] |}.

(** * Properties *)

(** ** Strings and header maps *)

Lemma append_String (c : Ascii.ascii) (a b : string) :
  (String c a ++ b)%string = String c (a ++ b)%string.
Proof. reflexivity. Qed.

Lemma append_Empty (b : string) : (EmptyString ++ b)%string = b.
Proof. reflexivity. Qed.

Lemma prefix_app (a s : string) :
  String.prefix a s = true <-> exists post, s = (a ++ post)%string.
Proof.
  revert s. induction a as [|c a IH]; intros s.
  - destruct s; simpl; split; eauto.
  - destruct s as [|d s]; simpl.
    + split; [discriminate | intros [post H]; discriminate].
    + destruct (Ascii.ascii_dec c d) as [->|Hne].
      * rewrite IH. split; intros [post H]; exists post;
          rewrite append_String in *; congruence.
      * split; [discriminate | intros [post H]; rewrite append_String in H; congruence].
Qed.

Lemma Contains_Empty (substr : string) :
  Contains EmptyString substr = String.prefix substr EmptyString || false.
Proof. reflexivity. Qed.

Lemma Contains_String (c : Ascii.ascii) (s substr : string) :
  Contains (String c s) substr = String.prefix substr (String c s) || Contains s substr.
Proof. reflexivity. Qed.

Lemma Contains_spec (s substr : string) :
  Contains s substr = true <-> exists pre post, s = (pre ++ substr ++ post)%string.
Proof.
  induction s as [|c s IH]; [rewrite Contains_Empty | rewrite Contains_String].
  - rewrite orb_false_r, prefix_app. split.
    + intros [post H]. exists EmptyString, post. exact H.
    + intros (pre & post & H). destruct pre; [|discriminate]. eauto.
  - rewrite orb_true_iff, prefix_app, IH. split.
    + intros [[post H]|(pre & post & H)].
      * exists EmptyString, post. exact H.
      * exists (String c pre), post. rewrite append_String. congruence.
    + intros (pre & post & H). destruct pre as [|d pre].
      * left. eauto.
      * right. exists pre, post. rewrite append_String in H. congruence.
Qed.

Lemma CopyHeaders_lookup (dst src : http_Header) (k : string) :
  CopyHeaders dst src !! k =
    match src !! k with
    | Some vv => Some (default [] (dst !! k) ++ vv)%list
    | None => dst !! k
    end.
Proof.
  unfold CopyHeaders.
  apply (map_fold_weak_ind (fun (r m : http_Header) =>
    r !! k = match m !! k with
             | Some vv => Some (default [] (dst !! k) ++ vv)%list
             | None => dst !! k
             end)).
  - by rewrite lookup_empty.
  - intros i x m r Hi IH. destruct (decide (i = k)) as [->|Hne].
    + rewrite !lookup_insert_eq. rewrite Hi in IH. by rewrite IH.
    + by rewrite !lookup_insert_ne.
Qed.

Lemma deref_insert_eq (h : Heap) (l : loc) (m : http_Header) :
  deref (<[l := m]> h) l = m.
Proof. unfold deref. by rewrite lookup_insert_eq. Qed.

Lemma deref_insert_ne (h : Heap) (l l' : loc) (m : http_Header) :
  l ≠ l' -> deref (<[l := m]> h) l' = deref h l'.
Proof. intros. unfold deref. by rewrite lookup_insert_ne. Qed.

Lemma make_http_Header_fresh (h : Heap) : (make_http_Header h).1 ∉ dom h.
Proof. apply is_fresh. Qed.

(** ** Programs *)

Lemma run_invariant {O A S : Type} (step : O -> S -> A * S) (Inv : S -> Prop) :
  (forall o s, Inv s -> Inv (step o s).2) ->
  forall (p : Prog O A) s, Inv s -> Inv (run step p s).
Proof.
  intros Hstep p. induction p as [|o k IH]; intros s Hs; simpl; [exact Hs|].
  specialize (Hstep o s Hs). destruct (step o s) as [a s']. by apply IH.
Qed.

(** ** The range test *)

Lemma inRange_spec (c : Z) (block : Z * Z) :
  inRange c block = true <-> block.1 <= c <= block.2.
Proof. unfold inRange. rewrite andb_true_iff, Z.geb_le, Z.leb_le. tauto. Qed.

Lemma existsb_inRange (c : Z) (R : HTTPCodeRanges) :
  existsb (inRange c) R = true <-> exists low high, In (low, high) R /\ low <= c <= high.
Proof.
  rewrite existsb_exists. split.
  - intros ([low high] & Hin & H). apply inRange_spec in H. eauto.
  - intros (low & high & Hin & H). exists (low, high). split; [done|]. by apply inRange_spec.
Qed.

Lemma PrettyError_catchLoop_eq (blocks : HTTPCodeRanges) (cc : PrettyError.codeCatcher) :
  PrettyError.catchLoop blocks cc =
    if existsb (inRange (PrettyError.code cc)) blocks
    then Some (PrettyError.set_caughtFilteredCode true cc) else None.
Proof.
  induction blocks as [|b blocks IH]; simpl; [done|].
  unfold inRange at 1. by destruct (_ && _).
Qed.

Lemma Httputil_catchLoop_eq (blocks : HTTPCodeRanges) (cc : Httputil.CodeCatcher) :
  Httputil.catchLoop blocks cc =
    if existsb (inRange (Httputil.code cc)) blocks
    then Some (Httputil.set_caughtFilteredCode true cc) else None.
Proof.
  induction blocks as [|b blocks IH]; simpl; [done|].
  unfold inRange at 1. by destruct (_ && _).
Qed.

(** ** The status transition *)

Lemma PrettyError_WriteHeader_closed c cc w :
  PrettyError.headersSent cc || PrettyError.caughtFilteredCode cc = true ->
  PrettyError.WriteHeader c cc w = (cc, w).
Proof. intros H. unfold PrettyError.WriteHeader. by rewrite H. Qed.

Lemma Httputil_WriteHeader_closed c cc w :
  Httputil.headersSent cc || Httputil.caughtFilteredCode cc = true ->
  Httputil.WriteHeader c cc w = (cc, w).
Proof. intros H. unfold Httputil.WriteHeader. by rewrite H. Qed.

Lemma PrettyError_WriteHeader_caught c cc w :
  PrettyError_open cc ->
  existsb (inRange c) (PrettyError.httpCodeRanges cc) = true ->
  PrettyError.WriteHeader c cc w =
    (PrettyError.set_caughtFilteredCode true (PrettyError.set_code c cc), w).
Proof.
  intros [H1 H2] H. unfold PrettyError.WriteHeader.
  rewrite H1, H2, PrettyError_catchLoop_eq. simpl. by rewrite H.
Qed.

Lemma Httputil_WriteHeader_caught c cc w :
  Httputil_open cc ->
  existsb (inRange c) (Httputil.httpCodeRanges cc) = true ->
  Httputil.WriteHeader c cc w =
    (Httputil.set_caughtFilteredCode true (Httputil.set_code c cc), w).
Proof.
  intros [H1 H2] H. unfold Httputil.WriteHeader.
  rewrite H1, H2, Httputil_catchLoop_eq. simpl. by rewrite H.
Qed.

Lemma PrettyError_WriteHeader_commit c cc w :
  PrettyError_open cc ->
  existsb (inRange c) (PrettyError.httpCodeRanges cc) = false ->
  PrettyError.WriteHeader c cc w =
    let '(src, cc', w') := PrettyError.Header (PrettyError.set_code c cc) w in
    let dst := sink_Header w in
    (PrettyError.set_headersSent true cc',
     sink_WriteHeader c
       (set_heap (<[dst := CopyHeaders (deref (heap w') dst) (deref (heap w') src)]> (heap w')) w')).
Proof.
  intros [H1 H2] H. unfold PrettyError.WriteHeader.
  rewrite H1, H2, PrettyError_catchLoop_eq. simpl. rewrite H.
  unfold PrettyError.Header. simpl. by destruct (PrettyError.headerMap cc).
Qed.

Lemma Httputil_WriteHeader_commit c cc w :
  Httputil_open cc ->
  existsb (inRange c) (Httputil.httpCodeRanges cc) = false ->
  Httputil.WriteHeader c cc w =
    let '(src, cc', w') := Httputil.Header (Httputil.set_code c cc) w in
    let dst := sink_Header w in
    (Httputil.set_headersSent true cc',
     sink_WriteHeader c
       (set_heap (<[dst := CopyHeaders (deref (heap w') dst) (deref (heap w') src)]> (heap w')) w')).
Proof.
  intros [H1 H2] H. unfold Httputil.WriteHeader.
  rewrite H1, H2, Httputil_catchLoop_eq. simpl. rewrite H.
  unfold Httputil.Header. simpl. by destruct (Httputil.headerMap cc).
Qed.

(** Every state is closed or open, and an open one leaves by exactly one of
    the two exits. *)
Lemma PrettyError_WriteHeader_cases c cc w :
  (PrettyError.headersSent cc || PrettyError.caughtFilteredCode cc = true /\
   PrettyError.WriteHeader c cc w = (cc, w))
  \/ (PrettyError_open cc /\ existsb (inRange c) (PrettyError.httpCodeRanges cc) = true)
  \/ (PrettyError_open cc /\ existsb (inRange c) (PrettyError.httpCodeRanges cc) = false).
Proof.
  destruct (PrettyError.headersSent cc || PrettyError.caughtFilteredCode cc) eqn:E.
  - left. split; [done|]. by apply PrettyError_WriteHeader_closed.
  - apply orb_false_elim in E. right.
    destruct (existsb _ _); [left | right]; done.
Qed.

Lemma Httputil_WriteHeader_cases c cc w :
  (Httputil.headersSent cc || Httputil.caughtFilteredCode cc = true /\
   Httputil.WriteHeader c cc w = (cc, w))
  \/ (Httputil_open cc /\ existsb (inRange c) (Httputil.httpCodeRanges cc) = true)
  \/ (Httputil_open cc /\ existsb (inRange c) (Httputil.httpCodeRanges cc) = false).
Proof.
  destruct (Httputil.headersSent cc || Httputil.caughtFilteredCode cc) eqn:E.
  - left. split; [done|]. by apply Httputil_WriteHeader_closed.
  - apply orb_false_elim in E. right.
    destruct (existsb _ _); [left | right]; done.
Qed.

(** ** What [Header] returns *)

Lemma PrettyError_Header_spec cc w l cc' w' :
  PrettyError.Header cc w = (l, cc', w') ->
  cc' = PrettyError.set_headerMap (Some l) cc /\ sink w' = sink w /\ logs w' = logs w /\
  ((PrettyError.headerMap cc = Some l /\ w' = w) \/
   (PrettyError.headerMap cc = None /\ (l ∉ dom (heap w)) /\ heap w' = <[l := ∅]> (heap w))).
Proof.
  unfold PrettyError.Header, make_http_Header. destruct cc as [[l0|] ? ? ? ?]; simpl;
    intros; simplify_eq/=; repeat split; auto.
  right. repeat split. apply is_fresh.
Qed.

Lemma Httputil_Header_spec cc w l cc' w' :
  Httputil.Header cc w = (l, cc', w') ->
  cc' = Httputil.set_headerMap (Some l) cc /\ sink w' = sink w /\ logs w' = logs w /\
  ((Httputil.headerMap cc = Some l /\ w' = w) \/
   (Httputil.headerMap cc = None /\ (l ∉ dom (heap w)) /\ heap w' = <[l := ∅]> (heap w))).
Proof.
  unfold Httputil.Header, make_http_Header. destruct cc as [? ? ? [l0|] ? ? ? ?]; simpl;
    intros; simplify_eq/=; repeat split; auto.
  right. repeat split. apply is_fresh.
Qed.

(** ** The two flags *)

Lemma PrettyError_WriteHeader_flags c cc w :
  PrettyError.headersSent cc && PrettyError.caughtFilteredCode cc = false ->
  PrettyError.headersSent (PrettyError.WriteHeader c cc w).1
  && PrettyError.caughtFilteredCode (PrettyError.WriteHeader c cc w).1 = false.
Proof.
  intros Hinv.
  destruct (PrettyError_WriteHeader_cases c cc w) as [[_ ->]|[[[H1 H2] H]|[[H1 H2] H]]]; [done| |].
  - rewrite PrettyError_WriteHeader_caught by done. simpl. by rewrite H1.
  - rewrite PrettyError_WriteHeader_commit by done.
    destruct (PrettyError.Header _ _) as [[l cc'] w'] eqn:E.
    apply PrettyError_Header_spec in E as (-> & _). simpl. by rewrite H2.
Qed.

Lemma Httputil_WriteHeader_flags c cc w :
  Httputil.headersSent cc && Httputil.caughtFilteredCode cc = false ->
  Httputil.headersSent (Httputil.WriteHeader c cc w).1
  && Httputil.caughtFilteredCode (Httputil.WriteHeader c cc w).1 = false.
Proof.
  intros Hinv.
  destruct (Httputil_WriteHeader_cases c cc w) as [[_ ->]|[[[H1 H2] H]|[[H1 H2] H]]]; [done| |].
  - rewrite Httputil_WriteHeader_caught by done. simpl. by rewrite H1.
  - rewrite Httputil_WriteHeader_commit by done.
    destruct (Httputil.Header _ _) as [[l cc'] w'] eqn:E.
    apply Httputil_Header_spec in E as (-> & _). simpl. by rewrite H2.
Qed.

Lemma PrettyError_step_flags o s :
  PrettyError.headersSent s.1 && PrettyError.caughtFilteredCode s.1 = false ->
  PrettyError.headersSent (PrettyError.step o s).2.1
  && PrettyError.caughtFilteredCode (PrettyError.step o s).2.1 = false.
Proof.
  destruct s as [cc w]. simpl. intros Hinv.
  destruct o as [f|c|buf| |]; simpl.
  - destruct (PrettyError.Header cc w) as [[l cc'] w'] eqn:E.
    apply PrettyError_Header_spec in E as (-> & _). done.
  - by apply PrettyError_WriteHeader_flags.
  - unfold PrettyError.Write.
    pose proof (PrettyError_WriteHeader_flags (PrettyError.code cc) cc w Hinv) as H.
    destruct (PrettyError.WriteHeader _ cc w) as [cc' w']. simpl in H.
    destruct (PrettyError.caughtFilteredCode cc') eqn:E;
      [|unfold sink_Write; destruct (rw_write _ _)]; simpl; by rewrite ?E in *.
  - unfold PrettyError.Flush.
    pose proof (PrettyError_WriteHeader_flags (PrettyError.code cc) cc w Hinv) as H.
    by destruct (PrettyError.WriteHeader _ cc w) as [cc' w'].
  - unfold PrettyError.Hijack. by destruct (sink_Hijack w).
Qed.

Lemma Httputil_step_flags o s :
  Httputil.headersSent s.1 && Httputil.caughtFilteredCode s.1 = false ->
  Httputil.headersSent (Httputil.step o s).2.1
  && Httputil.caughtFilteredCode (Httputil.step o s).2.1 = false.
Proof.
  destruct s as [cc w]. simpl. intros Hinv.
  destruct o as [f|c|buf| |]; simpl.
  - destruct (Httputil.Header cc w) as [[l cc'] w'] eqn:E.
    apply Httputil_Header_spec in E as (-> & _). done.
  - by apply Httputil_WriteHeader_flags.
  - unfold Httputil.Write.
    pose proof (Httputil_WriteHeader_flags (Httputil.code cc) cc w Hinv) as H.
    destruct (Httputil.WriteHeader _ cc w) as [cc' w'].
    unfold sink_Write. by destruct (rw_write _ _).
  - unfold Httputil.Flush.
    pose proof (Httputil_WriteHeader_flags (Httputil.code cc) cc w Hinv) as H.
    by destruct (Httputil.WriteHeader _ cc w) as [cc' w'].
  - unfold Httputil.Hijack. by destruct (sink_Hijack w).
Qed.

Lemma Httputil_xstep_flags cu o s :
  Httputil.headersSent s.1 && Httputil.caughtFilteredCode s.1 = false ->
  Httputil.headersSent (Httputil.xstep cu o s).2.1
  && Httputil.caughtFilteredCode (Httputil.xstep cu o s).2.1 = false.
Proof.
  intros Hinv. destruct o as [o|f| |data|value| ]; simpl; try done.
  - pose proof (Httputil_step_flags o s Hinv) as H.
    by destruct (Httputil.step o s).
  - unfold Httputil.GetContent. by destruct (Decode _ _ _).
  - unfold Httputil.SetContent. destruct (Encode _ _ _) as [bodyBytes e].
    assert (Httputil.headersSent
              (if negb (Httputil.wroteHeader s.1) then Httputil.WriteHeader 200 s.1 s.2
               else (s.1, s.2)).1
            && Httputil.caughtFilteredCode
                 (if negb (Httputil.wroteHeader s.1) then Httputil.WriteHeader 200 s.1 s.2
                  else (s.1, s.2)).1 = false) as H.
    { destruct (negb _); [by apply Httputil_WriteHeader_flags | done]. }
    destruct (if negb _ then _ else _) as [cc' w']. simpl in H.
    destruct (sink_Write bodyBytes w') as [[n [e'|]] w'']; done.
Qed.

(** ** The private buffer and the sink's header map are two maps

    and the sink's own methods touch neither. *)

Lemma separate_ext hm w w' :
  heap w' = heap w -> sink_Header w' = sink_Header w -> separate hm w -> separate hm w'.
Proof. unfold separate. intros -> ->. done. Qed.

Lemma sink_WriteHeader_maps c w :
  heap (sink_WriteHeader c w) = heap w /\ sink_Header (sink_WriteHeader c w) = sink_Header w.
Proof. done. Qed.

Lemma sink_Write_maps buf w :
  heap (sink_Write buf w).2 = heap w /\ sink_Header (sink_Write buf w).2 = sink_Header w.
Proof. done. Qed.

Lemma sink_Flush_maps w :
  heap (sink_Flush w) = heap w /\ sink_Header (sink_Flush w) = sink_Header w.
Proof. unfold sink_Flush. by destruct (rw_flusher _). Qed.

Lemma sink_Hijack_maps w :
  heap (sink_Hijack w).2 = heap w /\ sink_Header (sink_Hijack w).2 = sink_Header w.
Proof. unfold sink_Hijack. by destruct (rw_hijacker _). Qed.

Lemma separate_alloc w :
  sink_Header w ∈ dom (heap w) ->
  separate (Some (make_http_Header (heap w)).1) (set_heap (make_http_Header (heap w)).2 w).
Proof.
  intros Hs. pose proof (is_fresh (dom (heap w))) as Hf.
  unfold separate, make_http_Header, sink_Header in *. simpl.
  rewrite dom_insert_L. split; [set_solver|]. intros l [= <-]. split; [set_solver|].
  intros Heq. rewrite Heq in Hf. done.
Qed.

Lemma separate_update l m hm w :
  separate hm w -> l ∈ dom (heap w) -> separate hm (set_heap (<[l := m]> (heap w)) w).
Proof.
  unfold separate, sink_Header. simpl. rewrite dom_insert_L.
  intros [Hs Hl] Hin. split; [apply elem_of_union; by right|]. intros l' Hl'.
  destruct (Hl l' Hl'). split; [apply elem_of_union; by right | done].
Qed.

Lemma PrettyError_Header_separate cc w l cc' w' :
  PrettyError.Header cc w = (l, cc', w') ->
  separate (PrettyError.headerMap cc) w ->
  separate (PrettyError.headerMap cc') w' /\ PrettyError.headerMap cc' = Some l /\
  sink_headers w' = sink_headers w.
Proof.
  unfold PrettyError.Header. destruct (PrettyError.headerMap cc) as [l0|] eqn:E.
  - intros [= <- <- <-] Hsep. by rewrite E.
  - intros [= <- <- <-] [Hs _]. simpl. split; [by apply separate_alloc|]. split; [done|].
    destruct (separate_alloc w Hs) as [_ Hne]. destruct (Hne _ eq_refl) as [_ Hne'].
    unfold sink_headers. simpl in *. unfold set_heap, sink_Header in *. simpl in *.
    by rewrite deref_insert_ne.
Qed.

Lemma Httputil_Header_separate cc w l cc' w' :
  Httputil.Header cc w = (l, cc', w') ->
  separate (Httputil.headerMap cc) w ->
  separate (Httputil.headerMap cc') w' /\ Httputil.headerMap cc' = Some l /\
  sink_headers w' = sink_headers w.
Proof.
  unfold Httputil.Header. destruct (Httputil.headerMap cc) as [l0|] eqn:E.
  - intros [= <- <- <-] Hsep. by rewrite E.
  - intros [= <- <- <-] [Hs _]. simpl. split; [by apply separate_alloc|]. split; [done|].
    destruct (separate_alloc w Hs) as [_ Hne]. destruct (Hne _ eq_refl) as [_ Hne'].
    unfold sink_headers. simpl in *. unfold set_heap, sink_Header in *. simpl in *.
    by rewrite deref_insert_ne.
Qed.

Lemma PrettyError_WriteHeader_separate c cc w :
  separate (PrettyError.headerMap cc) w ->
  separate (PrettyError.headerMap (PrettyError.WriteHeader c cc w).1)
           (PrettyError.WriteHeader c cc w).2.
Proof.
  intros Hsep.
  destruct (PrettyError_WriteHeader_cases c cc w) as [[_ ->]|[[Ho H]|[Ho H]]]; [done| |].
  - by rewrite PrettyError_WriteHeader_caught.
  - rewrite PrettyError_WriteHeader_commit by done.
    destruct (PrettyError.Header _ _) as [[l cc'] w'] eqn:E.
    pose proof (PrettyError_Header_spec _ _ _ _ _ E) as (_ & Hsink & _).
    apply PrettyError_Header_separate in E as (Hsep' & Hl & _); [|done]. simpl.
    eapply separate_ext; [apply sink_WriteHeader_maps..|].
    apply separate_update; [done|].
    destruct Hsep' as [Hs _]. unfold sink_Header in *. by rewrite <- Hsink.
Qed.

Lemma Httputil_WriteHeader_separate c cc w :
  separate (Httputil.headerMap cc) w ->
  separate (Httputil.headerMap (Httputil.WriteHeader c cc w).1)
           (Httputil.WriteHeader c cc w).2.
Proof.
  intros Hsep.
  destruct (Httputil_WriteHeader_cases c cc w) as [[_ ->]|[[Ho H]|[Ho H]]]; [done| |].
  - by rewrite Httputil_WriteHeader_caught.
  - rewrite Httputil_WriteHeader_commit by done.
    destruct (Httputil.Header _ _) as [[l cc'] w'] eqn:E.
    pose proof (Httputil_Header_spec _ _ _ _ _ E) as (_ & Hsink & _).
    apply Httputil_Header_separate in E as (Hsep' & Hl & _); [|done]. simpl.
    eapply separate_ext; [apply sink_WriteHeader_maps..|].
    apply separate_update; [done|].
    destruct Hsep' as [Hs _]. unfold sink_Header in *. by rewrite <- Hsink.
Qed.

Lemma PrettyError_step_separate o s :
  separate (PrettyError.headerMap s.1) s.2 ->
  separate (PrettyError.headerMap (PrettyError.step o s).2.1) (PrettyError.step o s).2.2.
Proof.
  destruct s as [cc w]. simpl. intros Hsep.
  destruct o as [f|c|buf| |]; simpl.
  - destruct (PrettyError.Header cc w) as [[l cc'] w'] eqn:E.
    apply PrettyError_Header_separate in E as (Hsep' & Hl & _); [|done]. simpl.
    apply separate_update; [done|]. destruct Hsep' as [_ Hs]. by apply Hs.
  - by apply PrettyError_WriteHeader_separate.
  - unfold PrettyError.Write.
    pose proof (PrettyError_WriteHeader_separate (PrettyError.code cc) cc w Hsep) as H.
    destruct (PrettyError.WriteHeader _ cc w) as [cc' w']. simpl in H.
    destruct (PrettyError.caughtFilteredCode cc'); [done|].
    unfold sink_Write. by destruct (rw_write _ _).
  - unfold PrettyError.Flush.
    pose proof (PrettyError_WriteHeader_separate (PrettyError.code cc) cc w Hsep) as H.
    destruct (PrettyError.WriteHeader _ cc w) as [cc' w']. simpl in *.
    eapply separate_ext; [apply sink_Flush_maps..|done].
  - unfold PrettyError.Hijack.
    pose proof (sink_Hijack_maps w) as [H1 H2].
    destruct (sink_Hijack w) as [e w']. simpl in *. by eapply separate_ext.
Qed.

Lemma Httputil_step_separate o s :
  separate (Httputil.headerMap s.1) s.2 ->
  separate (Httputil.headerMap (Httputil.step o s).2.1) (Httputil.step o s).2.2.
Proof.
  destruct s as [cc w]. simpl. intros Hsep.
  destruct o as [f|c|buf| |]; simpl.
  - destruct (Httputil.Header cc w) as [[l cc'] w'] eqn:E.
    apply Httputil_Header_separate in E as (Hsep' & Hl & _); [|done]. simpl.
    apply separate_update; [done|]. destruct Hsep' as [_ Hs]. by apply Hs.
  - by apply Httputil_WriteHeader_separate.
  - unfold Httputil.Write.
    pose proof (Httputil_WriteHeader_separate (Httputil.code cc) cc w Hsep) as H.
    destruct (Httputil.WriteHeader _ cc w) as [cc' w']. simpl in H.
    unfold sink_Write. by destruct (rw_write _ _).
  - unfold Httputil.Flush.
    pose proof (Httputil_WriteHeader_separate (Httputil.code cc) cc w Hsep) as H.
    destruct (Httputil.WriteHeader _ cc w) as [cc' w']. simpl in *.
    eapply separate_ext; [apply sink_Flush_maps..|done].
  - unfold Httputil.Hijack.
    pose proof (sink_Hijack_maps w) as [H1 H2].
    destruct (sink_Hijack w) as [e w']. simpl in *. by eapply separate_ext.
Qed.

Lemma Httputil_xstep_separate cu o s :
  separate (Httputil.headerMap s.1) s.2 ->
  separate (Httputil.headerMap (Httputil.xstep cu o s).2.1) (Httputil.xstep cu o s).2.2.
Proof.
  intros Hsep. destruct o as [o|f| |data|value| ]; simpl; try done.
  - pose proof (Httputil_step_separate o s Hsep) as H.
    by destruct (Httputil.step o s).
  - unfold Httputil.GetContent. by destruct (Decode _ _ _).
  - unfold Httputil.SetContent. destruct (Encode _ _ _) as [bodyBytes e].
    assert (separate
              (Httputil.headerMap
                 (if negb (Httputil.wroteHeader s.1) then Httputil.WriteHeader 200 s.1 s.2
                  else (s.1, s.2)).1)
              (if negb (Httputil.wroteHeader s.1) then Httputil.WriteHeader 200 s.1 s.2
               else (s.1, s.2)).2) as H.
    { destruct (negb _); [by apply Httputil_WriteHeader_separate | done]. }
    destruct (if negb _ then _ else _) as [cc' w']. simpl in H.
    unfold sink_Write. destruct (rw_write _ _) as [n [e'|]]; done.
Qed.

(** ** C3: the range test *)

Lemma PrettyError_WriteHeader_isFilteredCode c cc w :
  PrettyError_open cc ->
  PrettyError.isFilteredCode (PrettyError.WriteHeader c cc w).1 =
    existsb (inRange c) (PrettyError.httpCodeRanges cc).
Proof.
  intros Ho. destruct (existsb _ _) eqn:H.
  - by rewrite PrettyError_WriteHeader_caught.
  - rewrite PrettyError_WriteHeader_commit by done.
    destruct (PrettyError.Header _ _) as [[l cc'] w'] eqn:E.
    apply PrettyError_Header_spec in E as (-> & _). apply Ho.
Qed.

Lemma Httputil_WriteHeader_IsFilteredCode c cc w :
  Httputil_open cc ->
  Httputil.IsFilteredCode (Httputil.WriteHeader c cc w).1 =
    existsb (inRange c) (Httputil.httpCodeRanges cc).
Proof.
  intros Ho. destruct (existsb _ _) eqn:H.
  - by rewrite Httputil_WriteHeader_caught.
  - rewrite Httputil_WriteHeader_commit by done.
    destruct (Httputil.Header _ _) as [[l cc'] w'] eqn:E.
    apply Httputil_Header_spec in E as (-> & _). apply Ho.
Qed.

(** C3.  A status-setting call on an interceptor that has made no transition
    yet marks the response as filtered if and only if some configured pair
    [(low, high)] has [low <= code <= high], both ends included; the answer
    is a function of the code and the ranges alone.  Holds for the internal
    and for the exported interceptor. *)
Theorem C3_filtered_iff_in_some_range
    (c : Z) (cc : PrettyError.codeCatcher) (xc : Httputil.CodeCatcher) (w : World) :
  PrettyError_open cc ->
  Httputil_open xc ->
  (PrettyError.isFilteredCode (PrettyError.WriteHeader c cc w).1 = true <->
   exists low high, In (low, high) (PrettyError.httpCodeRanges cc) /\ low <= c <= high)
  /\
  (Httputil.IsFilteredCode (Httputil.WriteHeader c xc w).1 = true <->
   exists low high, In (low, high) (Httputil.httpCodeRanges xc) /\ low <= c <= high).
Proof.
  intros Ho Hxo. split.
  - rewrite PrettyError_WriteHeader_isFilteredCode by done. apply existsb_inRange.
  - rewrite Httputil_WriteHeader_IsFilteredCode by done. apply existsb_inRange.
Qed.

Lemma C3_filtered_iff_in_some_range_witness :
  let cc := (PrettyError.newCodeCatcher server_errors ok_world).1 in
  let xc := (Httputil.NewCodeCatcher server_errors ok_world).1 in
  (PrettyError.isFilteredCode (PrettyError.WriteHeader 503 cc ok_world).1 = true <->
   exists low high, In (low, high) (PrettyError.httpCodeRanges cc) /\ low <= 503 <= high)
  /\
  (Httputil.IsFilteredCode (Httputil.WriteHeader 503 xc ok_world).1 = true <->
   exists low high, In (low, high) (Httputil.httpCodeRanges xc) /\ low <= 503 <= high).
Proof.
  apply (C3_filtered_iff_in_some_range 503); split; reflexivity.
Defined.

(** ** C4: the two flags exclude each other *)

(** C4.  Whatever a caller does with an interceptor from its constructor
    on, [headersSent] and [caughtFilteredCode] are never both true.  Holds
    for the internal interceptor under every handler, and for the exported
    one under every use of its methods. *)
Theorem C4_flags_never_both_true
    (R : HTTPCodeRanges) (w : World) (cu : Compressutil)
    (p : Prog Op Answer) (q : Prog Httputil.XOp Httputil.XAnswer) :
  (let cc := (run PrettyError.step p (PrettyError.newCodeCatcher R w)).1 in
   PrettyError.headersSent cc && PrettyError.caughtFilteredCode cc = false)
  /\
  (let xc := (run (Httputil.xstep cu) q (Httputil.NewCodeCatcher R w)).1 in
   Httputil.headersSent xc && Httputil.caughtFilteredCode xc = false).
Proof.
  split.
  - apply (run_invariant PrettyError.step
             (fun s => PrettyError.headersSent s.1 && PrettyError.caughtFilteredCode s.1 = false)).
    + intros o s. apply PrettyError_step_flags.
    + reflexivity.
  - apply (run_invariant (Httputil.xstep cu)
             (fun s => Httputil.headersSent s.1 && Httputil.caughtFilteredCode s.1 = false)).
    + intros o s. apply Httputil_xstep_flags.
    + reflexivity.
Qed.

(** ** C5: later status-setting calls *)

(** C5.  On an interceptor that has made its transition, to FILTERED or to
    COMMITTED, a status-setting call with any code returns the interceptor
    and the world (heap, sink, log) exactly as they were.  Holds for both
    interceptors. *)
Theorem C5_WriteHeader_after_transition_is_noop
    (c : Z) (cc : PrettyError.codeCatcher) (xc : Httputil.CodeCatcher) (w : World) :
  PrettyError.headersSent cc = true \/ PrettyError.caughtFilteredCode cc = true ->
  Httputil.headersSent xc = true \/ Httputil.caughtFilteredCode xc = true ->
  PrettyError.WriteHeader c cc w = (cc, w) /\ Httputil.WriteHeader c xc w = (xc, w).
Proof.
  intros H Hx. split.
  - apply PrettyError_WriteHeader_closed. by apply orb_true_iff.
  - apply Httputil_WriteHeader_closed. by apply orb_true_iff.
Qed.

Lemma C5_WriteHeader_after_transition_is_noop_witness :
  let s := PrettyError.newCodeCatcher server_errors ok_world in
  let x := Httputil.NewCodeCatcher server_errors ok_world in
  let s1 := PrettyError.WriteHeader 503 s.1 s.2 in
  let x1 := Httputil.WriteHeader 200 x.1 x.2 in
  PrettyError.WriteHeader 404 s1.1 ok_world = (s1.1, ok_world) /\
  Httputil.WriteHeader 404 x1.1 ok_world = (x1.1, ok_world).
Proof.
  apply (C5_WriteHeader_after_transition_is_noop 404); [right | left]; reflexivity.
Defined.

(** The same, from any state: a second status-setting call changes nothing. *)
Lemma PrettyError_WriteHeader_twice c0 c cc w :
  let s := PrettyError.WriteHeader c0 cc w in PrettyError.WriteHeader c s.1 s.2 = s.
Proof.
  simpl.
  destruct (PrettyError_WriteHeader_cases c0 cc w) as [[Hc E]|[[Ho H]|[Ho H]]].
  - rewrite E. simpl. by apply PrettyError_WriteHeader_closed.
  - rewrite (PrettyError_WriteHeader_caught c0 cc w) by done. simpl.
    apply PrettyError_WriteHeader_closed. simpl. apply orb_true_r.
  - rewrite (PrettyError_WriteHeader_commit c0 cc w) by done.
    destruct (PrettyError.Header _ _) as [[l cc'] w']. simpl.
    by apply PrettyError_WriteHeader_closed.
Qed.

Lemma Httputil_WriteHeader_twice c0 c cc w :
  let s := Httputil.WriteHeader c0 cc w in Httputil.WriteHeader c s.1 s.2 = s.
Proof.
  simpl.
  destruct (Httputil_WriteHeader_cases c0 cc w) as [[Hc E]|[[Ho H]|[Ho H]]].
  - rewrite E. simpl. by apply Httputil_WriteHeader_closed.
  - rewrite (Httputil_WriteHeader_caught c0 cc w) by done. simpl.
    apply Httputil_WriteHeader_closed. simpl. apply orb_true_r.
  - rewrite (Httputil_WriteHeader_commit c0 cc w) by done.
    destruct (Httputil.Header _ _) as [[l cc'] w']. simpl.
    by apply Httputil_WriteHeader_closed.
Qed.

(** ** C6: the header merge at commit *)

Lemma CopyHeaders_empty (dst : http_Header) : CopyHeaders dst ∅ = dst.
Proof. apply map_eq. intros k. by rewrite CopyHeaders_lookup, lookup_empty. Qed.

Lemma deref_fresh (h : Heap) (l l' : loc) :
  l ∉ dom h -> deref (<[l := ∅]> h) l' = deref h l'.
Proof.
  intros Hl. destruct (decide (l = l')) as [<-|Hne].
  - rewrite deref_insert_eq. unfold deref. by rewrite (not_elem_of_dom_1 h l).
  - by apply deref_insert_ne.
Qed.

Lemma PrettyError_commit_headers c cc w k :
  PrettyError_open cc ->
  existsb (inRange c) (PrettyError.httpCodeRanges cc) = false ->
  sink_headers (PrettyError.WriteHeader c cc w).2 !! k =
    match PrettyError_headerBuffer cc w !! k with
    | Some vv => Some (default [] (sink_headers w !! k) ++ vv)%list
    | None => sink_headers w !! k
    end.
Proof.
  intros Ho H. rewrite PrettyError_WriteHeader_commit by done.
  destruct (PrettyError.Header _ _) as [[l cc'] w'] eqn:E.
  apply PrettyError_Header_spec in E as (-> & Hsink & _ & [[Hm ->]|(Hm & Hl & Hh)]);
    simpl in Hm; unfold PrettyError_headerBuffer; rewrite Hm;
    unfold sink_headers, sink_Header; simpl; rewrite ?Hsink, deref_insert_eq.
  - by rewrite CopyHeaders_lookup.
  - rewrite Hh, deref_insert_eq, CopyHeaders_empty, lookup_empty.
    by rewrite deref_fresh.
Qed.

Lemma Httputil_commit_headers c cc w k :
  Httputil_open cc ->
  existsb (inRange c) (Httputil.httpCodeRanges cc) = false ->
  sink_headers (Httputil.WriteHeader c cc w).2 !! k =
    match Httputil_headerBuffer cc w !! k with
    | Some vv => Some (default [] (sink_headers w !! k) ++ vv)%list
    | None => sink_headers w !! k
    end.
Proof.
  intros Ho H. rewrite Httputil_WriteHeader_commit by done.
  destruct (Httputil.Header _ _) as [[l cc'] w'] eqn:E.
  apply Httputil_Header_spec in E as (-> & Hsink & _ & [[Hm ->]|(Hm & Hl & Hh)]);
    simpl in Hm; unfold Httputil_headerBuffer; rewrite Hm;
    unfold sink_headers, sink_Header; simpl; rewrite ?Hsink, deref_insert_eq.
  - by rewrite CopyHeaders_lookup.
  - rewrite Hh, deref_insert_eq, CopyHeaders_empty, lookup_empty.
    by rewrite deref_fresh.
Qed.

(** C6.  [CopyHeaders] gives every name of the source the destination's
    values followed by the source's, in order, and leaves every other name
    as it was; and a status-setting call that commits (no transition before,
    code in no range) leaves in the sink's header map, for every name, the
    values the sink held followed by the values of the private buffer.
    Holds for both interceptors. *)
Theorem C6_commit_appends_buffered_headers
    (c : Z) (cc : PrettyError.codeCatcher) (xc : Httputil.CodeCatcher) (w : World)
    (dst src : http_Header) (k : string) :
  PrettyError_open cc ->
  existsb (inRange c) (PrettyError.httpCodeRanges cc) = false ->
  Httputil_open xc ->
  existsb (inRange c) (Httputil.httpCodeRanges xc) = false ->
  CopyHeaders dst src !! k =
    match src !! k with
    | Some vv => Some (default [] (dst !! k) ++ vv)%list
    | None => dst !! k
    end
  /\ sink_headers (PrettyError.WriteHeader c cc w).2 !! k =
       match PrettyError_headerBuffer cc w !! k with
       | Some vv => Some (default [] (sink_headers w !! k) ++ vv)%list
       | None => sink_headers w !! k
       end
  /\ sink_headers (Httputil.WriteHeader c xc w).2 !! k =
       match Httputil_headerBuffer xc w !! k with
       | Some vv => Some (default [] (sink_headers w !! k) ++ vv)%list
       | None => sink_headers w !! k
       end.
Proof.
  intros Ho H Hxo Hx. split; [apply CopyHeaders_lookup|]. split.
  - by apply PrettyError_commit_headers.
  - by apply Httputil_commit_headers.
Qed.

Lemma C6_commit_appends_buffered_headers_witness :
  sink_headers (PrettyError.WriteHeader 404 cookie_catcher cookie_world).2 !! "Set-Cookie"
    = Some ["s=0"; "a=1"; "b=2"; "a=1"]
  /\ sink_headers (Httputil.WriteHeader 404 cookie_CodeCatcher cookie_world).2 !! "Set-Cookie"
    = Some ["s=0"; "a=1"; "b=2"; "a=1"].
Proof.
  apply (C6_commit_appends_buffered_headers 404 cookie_catcher cookie_CodeCatcher cookie_world
           ∅ ∅ "Set-Cookie"); try split; reflexivity.
Defined.

(** ** C7: the status nobody set *)






(** ** C8: the support gate *)

(** X22.  [SupportsProcessing] answers true exactly for a request whose
    method is GET and whose first Upgrade value, which is what [Header.Get]
    returns (the empty string when there is none), does not contain
    "websocket"; and for a request it refuses, [ServeHTTP] is the next
    handler run on the sink itself: no interceptor is built and nothing is
    logged. *)
Theorem X22_SupportsProcessing_reads_first_Upgrade_value
    (req : Request) (bodyRewrite : PrettyError.rewriteBody) (w : World) :
  (SupportsProcessing req = true <->
   Method req = "GET" /\
   ~ exists pre post,
       Header_Get (req_Header req) "Upgrade" = (pre ++ "websocket" ++ post)%string)
  /\
  (SupportsProcessing req = false ->
   PrettyError.ServeHTTP bodyRewrite req w = run sink_step (PrettyError.next bodyRewrite req) w).
Proof.
  split.
  - unfold SupportsProcessing. rewrite <- Contains_spec.
    destruct (String.eqb (Method req) "GET") eqn:E; simpl.
    + apply String.eqb_eq in E.
      destruct (Contains _ _); split; try done; intros [_ H]; by destruct H.
    + apply String.eqb_neq in E. split; [done | intros [H _]; done].
  - intros H. unfold PrettyError.ServeHTTP. by rewrite H.
Qed.

Lemma X22_SupportsProcessing_reads_first_Upgrade_value_witness :
  SupportsProcessing websocket_request = false /\
  PrettyError.ServeHTTP upgrades websocket_request ok_world =
    run sink_step (PrettyError.next upgrades websocket_request) ok_world.
Proof.
  split; [reflexivity|].
  apply (X22_SupportsProcessing_reads_first_Upgrade_value websocket_request upgrades ok_world).
  reflexivity.
Defined.

(** C8, on the code.  A GET request that carries two Upgrade lines, "h2c"
    and then "websocket", has "websocket" in its Upgrade header, yet
    [SupportsProcessing] answers true for it, since [Header.Get] returns
    the first value only.  [ServeHTTP] then does not hand the request to the
    next handler with the sink itself: it builds a catcher and logs, and
    with the range 100-199 configured the handler's 101 and its frame never
    reach the sink, which the same handler run on the sink itself hands
    both. *)
Theorem C8_websocket_in_second_Upgrade_value_is_wrapped :
  req_Header two_upgrades_request !! "Upgrade" = Some ["h2c"; "websocket"]
  /\ Contains "websocket" "websocket" = true
  /\ Method two_upgrades_request = "GET"
  /\ SupportsProcessing two_upgrades_request = true
  /\ PrettyError.ServeHTTP upgrades two_upgrades_request ok_world
     <> run sink_step (PrettyError.next upgrades two_upgrades_request) ok_world
  /\ rw_codes (sink (PrettyError.ServeHTTP upgrades_101_filtered two_upgrades_request ok_world)) = []
  /\ rw_written (sink (PrettyError.ServeHTTP upgrades_101_filtered two_upgrades_request ok_world)) = []
  /\ rw_codes (sink (run sink_step (PrettyError.next upgrades_101_filtered two_upgrades_request)
                        ok_world)) = [101]
  /\ rw_written (sink (run sink_step (PrettyError.next upgrades_101_filtered two_upgrades_request)
                          ok_world)) = ["w"; "s"]%byte.
Proof.
  split_and!; try reflexivity.
  intros H. apply (f_equal logs) in H. vm_compute in H. discriminate.
Qed.

(** ** C10: what [Header] hands out *)

Lemma PrettyError_OpHeader_effect f cc w :
  separate (PrettyError.headerMap cc) w ->
  let s' := (PrettyError.step (OpHeader f) (cc, w)).2 in
  sink s'.2 = sink w /\ sink_headers s'.2 = sink_headers w /\
  PrettyError_headerBuffer s'.1 s'.2 = f (PrettyError_headerBuffer cc w).
Proof.
  intros Hsep. simpl.
  destruct (PrettyError.Header cc w) as [[l cc'] w'] eqn:E.
  pose proof (PrettyError_Header_spec _ _ _ _ _ E) as (Hcc & Hsink & _ & Hcase).
  pose proof (PrettyError_Header_separate _ _ _ _ _ E Hsep) as ([_ Hne] & Hl & Hsh).
  destruct (Hne l Hl) as [_ Hne']. simpl.
  split; [done|]. split.
  - rewrite <- Hsh. unfold sink_headers, sink_Header. simpl. by rewrite deref_insert_ne.
  - unfold PrettyError_headerBuffer. simpl. rewrite Hl, deref_insert_eq. f_equal.
    destruct Hcase as [[-> ->]|(-> & Hf & ->)]; [done|]. by rewrite deref_insert_eq.
Qed.

Lemma Httputil_OpHeader_effect f cc w :
  separate (Httputil.headerMap cc) w ->
  let s' := (Httputil.step (OpHeader f) (cc, w)).2 in
  sink s'.2 = sink w /\ sink_headers s'.2 = sink_headers w /\
  Httputil_headerBuffer s'.1 s'.2 = f (Httputil_headerBuffer cc w).
Proof.
  intros Hsep. simpl.
  destruct (Httputil.Header cc w) as [[l cc'] w'] eqn:E.
  pose proof (Httputil_Header_spec _ _ _ _ _ E) as (Hcc & Hsink & _ & Hcase).
  pose proof (Httputil_Header_separate _ _ _ _ _ E Hsep) as ([_ Hne] & Hl & Hsh).
  destruct (Hne l Hl) as [_ Hne']. simpl.
  split; [done|]. split.
  - rewrite <- Hsh. unfold sink_headers, sink_Header. simpl. by rewrite deref_insert_ne.
  - unfold Httputil_headerBuffer. simpl. rewrite Hl, deref_insert_eq. f_equal.
    destruct Hcase as [[-> ->]|(-> & Hf & ->)]; [done|]. by rewrite deref_insert_eq.
Qed.

(** The sink's header map changes at the commit and nowhere else. *)
Lemma PrettyError_WriteHeader_sink_headers c cc w :
  PrettyError.headersSent (PrettyError.WriteHeader c cc w).1 = PrettyError.headersSent cc ->
  sink_headers (PrettyError.WriteHeader c cc w).2 = sink_headers w.
Proof.
  destruct (PrettyError_WriteHeader_cases c cc w) as [[_ ->]|[[Ho H]|[Ho H]]]; [done| |].
  - by rewrite PrettyError_WriteHeader_caught.
  - rewrite PrettyError_WriteHeader_commit by done.
    destruct (PrettyError.Header _ _) as [[l cc'] w']. simpl.
    destruct Ho as [-> _]. discriminate.
Qed.

Lemma Httputil_WriteHeader_sink_headers c cc w :
  Httputil.headersSent (Httputil.WriteHeader c cc w).1 = Httputil.headersSent cc ->
  sink_headers (Httputil.WriteHeader c cc w).2 = sink_headers w.
Proof.
  destruct (Httputil_WriteHeader_cases c cc w) as [[_ ->]|[[Ho H]|[Ho H]]]; [done| |].
  - by rewrite Httputil_WriteHeader_caught.
  - rewrite Httputil_WriteHeader_commit by done.
    destruct (Httputil.Header _ _) as [[l cc'] w']. simpl.
    destruct Ho as [-> _]. discriminate.
Qed.

Lemma PrettyError_step_sink_headers o cc w :
  separate (PrettyError.headerMap cc) w ->
  PrettyError.headersSent (PrettyError.step o (cc, w)).2.1 = PrettyError.headersSent cc ->
  sink_headers (PrettyError.step o (cc, w)).2.2 = sink_headers w.
Proof.
  intros Hsep. destruct o as [f|c|buf| |].
  - intros _. by apply PrettyError_OpHeader_effect.
  - apply PrettyError_WriteHeader_sink_headers.
  - simpl. unfold PrettyError.Write.
    pose proof (PrettyError_WriteHeader_sink_headers (PrettyError.code cc) cc w) as H.
    destruct (PrettyError.WriteHeader _ cc w) as [cc' w']. simpl in H.
    destruct (PrettyError.caughtFilteredCode cc'); [done|].
    unfold sink_Write. by destruct (rw_write _ _).
  - simpl. unfold PrettyError.Flush.
    pose proof (PrettyError_WriteHeader_sink_headers (PrettyError.code cc) cc w) as H.
    destruct (PrettyError.WriteHeader _ cc w) as [cc' w']. simpl in *.
    intros E. rewrite <- (H E). unfold sink_Flush, sink_headers, sink_Header.
    by destruct (rw_flusher (sink w')).
  - intros _. simpl. unfold PrettyError.Hijack, sink_Hijack, sink_headers, sink_Header.
    by destruct (rw_hijacker (sink w)).
Qed.

Lemma Httputil_step_sink_headers o cc w :
  separate (Httputil.headerMap cc) w ->
  Httputil.headersSent (Httputil.step o (cc, w)).2.1 = Httputil.headersSent cc ->
  sink_headers (Httputil.step o (cc, w)).2.2 = sink_headers w.
Proof.
  intros Hsep. destruct o as [f|c|buf| |].
  - intros _. by apply Httputil_OpHeader_effect.
  - apply Httputil_WriteHeader_sink_headers.
  - simpl. unfold Httputil.Write.
    pose proof (Httputil_WriteHeader_sink_headers (Httputil.code cc) cc w) as H.
    destruct (Httputil.WriteHeader _ cc w) as [cc' w']. simpl in H.
    unfold sink_Write. by destruct (rw_write _ _).
  - simpl. unfold Httputil.Flush.
    pose proof (Httputil_WriteHeader_sink_headers (Httputil.code cc) cc w) as H.
    destruct (Httputil.WriteHeader _ cc w) as [cc' w']. simpl in *.
    intros E. rewrite <- (H E). unfold sink_Flush, sink_headers, sink_Header.
    by destruct (rw_flusher (sink w')).
  - intros _. simpl. unfold Httputil.Hijack, sink_Hijack, sink_headers, sink_Header.
    by destruct (rw_hijacker (sink w)).
Qed.

(** C10.  In a world where the sink's header map exists, at every state an
    interceptor reaches from its constructor, before or after the commit,
    [Header] returns the map of the [headerMap] field, which is not the map
    the sink's [Header] returns; and an update made through the map it
    returns changes the private buffer and leaves the sink, and the sink's
    header map, as they were; the sink's header map changes at no call but
    the one that sets [headersSent].  Holds for the internal interceptor
    under every handler and for the exported one under every use of its
    methods. *)
Theorem C10_Header_returns_private_buffer
    (R : HTTPCodeRanges) (w : World) (cu : Compressutil)
    (p : Prog Op Answer) (q : Prog Httputil.XOp Httputil.XAnswer)
    (f : http_Header -> http_Header) :
  sink_Header w ∈ dom (heap w) ->
  (let s := run PrettyError.step p (PrettyError.newCodeCatcher R w) in
   let r := PrettyError.Header s.1 s.2 in
   let s' := (PrettyError.step (OpHeader f) s).2 in
   PrettyError.headerMap r.1.2 = Some r.1.1 /\ r.1.1 ≠ sink_Header r.2
   /\ sink s'.2 = sink s.2 /\ sink_headers s'.2 = sink_headers s.2
   /\ PrettyError_headerBuffer s'.1 s'.2 = f (PrettyError_headerBuffer s.1 s.2)
   /\ forall o, PrettyError.headersSent (PrettyError.step o s).2.1 = PrettyError.headersSent s.1 ->
                 sink_headers (PrettyError.step o s).2.2 = sink_headers s.2)
  /\
  (let s := run (Httputil.xstep cu) q (Httputil.NewCodeCatcher R w) in
   let r := Httputil.Header s.1 s.2 in
   let s' := (Httputil.step (OpHeader f) s).2 in
   Httputil.headerMap r.1.2 = Some r.1.1 /\ r.1.1 ≠ sink_Header r.2
   /\ sink s'.2 = sink s.2 /\ sink_headers s'.2 = sink_headers s.2
   /\ Httputil_headerBuffer s'.1 s'.2 = f (Httputil_headerBuffer s.1 s.2)
   /\ forall o, Httputil.headersSent (Httputil.step o s).2.1 = Httputil.headersSent s.1 ->
                 sink_headers (Httputil.step o s).2.2 = sink_headers s.2).
Proof.
  intros Hw. split.
  - assert (separate (PrettyError.headerMap (run PrettyError.step p (PrettyError.newCodeCatcher R w)).1)
              (run PrettyError.step p (PrettyError.newCodeCatcher R w)).2) as Hsep.
    { apply (run_invariant PrettyError.step (fun s => separate (PrettyError.headerMap s.1) s.2)).
      - intros o s. apply PrettyError_step_separate.
      - by apply separate_alloc. }
    destruct (run PrettyError.step p _) as [cc w']. simpl in Hsep. cbv zeta.
    pose proof (PrettyError_OpHeader_effect f cc w' Hsep) as (H1 & H2 & H3).
    cbn [fst snd] in *.
    destruct (PrettyError.Header cc w') as [[l cc'] w''] eqn:E.
    apply PrettyError_Header_separate in E as ([_ Hne] & Hl & _); [|done].
    cbn [fst snd]. split_and!; try done.
    + by destruct (Hne l Hl).
    + intros o. by apply PrettyError_step_sink_headers.
  - assert (separate (Httputil.headerMap (run (Httputil.xstep cu) q (Httputil.NewCodeCatcher R w)).1)
              (run (Httputil.xstep cu) q (Httputil.NewCodeCatcher R w)).2) as Hsep.
    { apply (run_invariant (Httputil.xstep cu) (fun s => separate (Httputil.headerMap s.1) s.2)).
      - intros o s. apply Httputil_xstep_separate.
      - by apply separate_alloc. }
    destruct (run (Httputil.xstep cu) q _) as [cc w']. simpl in Hsep. cbv zeta.
    pose proof (Httputil_OpHeader_effect f cc w' Hsep) as (H1 & H2 & H3).
    cbn [fst snd] in *.
    destruct (Httputil.Header cc w') as [[l cc'] w''] eqn:E.
    apply Httputil_Header_separate in E as ([_ Hne] & Hl & _); [|done].
    cbn [fst snd]. split_and!; try done.
    + by destruct (Hne l Hl).
    + intros o. by apply Httputil_step_sink_headers.
Qed.

Lemma C10_Header_returns_private_buffer_witness :
  let s := run PrettyError.step commits (PrettyError.newCodeCatcher server_errors ok_world) in
  let s' := (PrettyError.step (OpHeader late_header) s).2 in
  PrettyError.headersSent s.1 = true
  /\ sink_headers s.2 !! "Content-Type" = Some ["text/plain"]
  /\ sink_headers s'.2 = sink_headers s.2
  /\ PrettyError_headerBuffer s'.1 s'.2 !! "X-Late" = Some ["1"].
Proof.
  pose proof (C10_Header_returns_private_buffer server_errors ok_world identity_codec
                commits Done late_header) as H.
  destruct H as [(_ & _ & _ & H2 & H3 & _) _].
  - apply elem_of_dom. exists ∅. reflexivity.
  - split; [reflexivity|]. split; [reflexivity|]. split; [exact H2|].
    rewrite H3. reflexivity.
Defined.

(** ** C9: the codec's errors *)

Lemma Httputil_WriteHeader_frame c cc w :
  rw_written (sink (Httputil.WriteHeader c cc w).2) = rw_written (sink w) /\
  rw_write (sink (Httputil.WriteHeader c cc w).2) = rw_write (sink w) /\
  logs (Httputil.WriteHeader c cc w).2 = logs w.
Proof.
  destruct (Httputil_WriteHeader_cases c cc w) as [[_ ->]|[[Ho H]|[Ho H]]]; [done| |].
  - by rewrite Httputil_WriteHeader_caught.
  - rewrite Httputil_WriteHeader_commit by done.
    destruct (Httputil.Header _ _) as [[l cc'] w'] eqn:E.
    apply Httputil_Header_spec in E as (_ & Hs & Hl & _). simpl. by rewrite Hs, Hl.
Qed.

Lemma PrettyError_WriteHeader_frame c cc w :
  rw_written (sink (PrettyError.WriteHeader c cc w).2) = rw_written (sink w) /\
  rw_write (sink (PrettyError.WriteHeader c cc w).2) = rw_write (sink w) /\
  logs (PrettyError.WriteHeader c cc w).2 = logs w.
Proof.
  destruct (PrettyError_WriteHeader_cases c cc w) as [[_ ->]|[[Ho H]|[Ho H]]]; [done| |].
  - by rewrite PrettyError_WriteHeader_caught.
  - rewrite PrettyError_WriteHeader_commit by done.
    destruct (PrettyError.Header _ _) as [[l cc'] w'] eqn:E.
    apply PrettyError_Header_spec in E as (_ & Hs & Hl & _). simpl. by rewrite Hs, Hl.
Qed.

(** Against C9 as stated: the encoder fails, and [SetContent] hands the sink
    the encoder's bytes (none here), neither the original nor the rewritten
    body; it logs nothing; and its outcome is that of an encoder that did
    not fail. *)
Lemma C9_SetContent_discards_encode_error :
  let s' := Httputil.SetContent failing_codec rewritten_body caught_503.1 caught_503.2 in
  Httputil.buffer caught_503.1 = original_body
  /\ Encode failing_codec rewritten_body (Httputil.getContentEncoding caught_503.2)
     = ([], Some "encode failed")
  /\ rw_written (sink s'.2) = []
  /\ rw_written (sink s'.2) <> original_body
  /\ logs s'.2 = []
  /\ s' = Httputil.SetContent empty_codec rewritten_body caught_503.1 caught_503.2.
Proof. vm_compute. repeat split; discriminate. Qed.

(** C9, amended.  [GetContent] returns what [Decode] returns for the buffer
    and the sink's Content-Encoding, the error included.  [SetContent]
    returns nothing; it hands the sink the bytes [Encode] returned whether
    or not [Encode] failed, logs only a failure of the sink's [Write], and
    two encoders that return the same bytes give the same outcome. *)
Theorem C9_codec_errors
    (cu cu' : Compressutil) (data : list byte) (cc : Httputil.CodeCatcher) (w : World) :
  let encoding := Httputil.getContentEncoding w in
  let bodyBytes := (Encode cu data encoding).1 in
  let s' := Httputil.SetContent cu data cc w in
  (Httputil.GetContent cu cc w).1.1 = (Decode cu (Httputil.buffer cc) encoding).1
  /\ rw_written (sink s'.2) = (rw_written (sink w) ++ bodyBytes)%list
  /\ logs s'.2 =
       match (rw_write (sink w) bodyBytes).2 with
       | Some e => (logs w ++ [("unable to write rewriten body: %v", [ArgErr e]);
                               ("Error Headers: %v", [ArgHeader (sink_headers s'.2)])])%list
       | None => logs w
       end
  /\ ((Encode cu' data encoding).1 = bodyBytes -> Httputil.SetContent cu' data cc w = s').
Proof.
  cbv zeta. split; [|split; [|split]].
  - unfold Httputil.GetContent. by destruct (Decode _ _ _).
  - unfold Httputil.SetContent. destruct (Encode cu data _) as [bodyBytes e]. simpl.
    pose proof (Httputil_WriteHeader_frame 200 cc w) as (Hw & _).
    destruct (negb _); [destruct (Httputil.WriteHeader 200 cc w) as [cc' w']|];
      simpl in *; destruct (rw_write _ _) as [n [e'|]]; simpl; congruence.
  - unfold Httputil.SetContent. destruct (Encode cu data _) as [bodyBytes e]. simpl.
    pose proof (Httputil_WriteHeader_frame 200 cc w) as (_ & Hw & Hl).
    destruct (negb _); [destruct (Httputil.WriteHeader 200 cc w) as [cc' w']|];
      simpl in *; rewrite ?Hw; destruct (rw_write _ _) as [n [e'|]]; simpl;
      rewrite ?Hl, <- ?app_assoc; reflexivity.
  - unfold Httputil.SetContent.
    destruct (Encode cu data _) as [bodyBytes e], (Encode cu' data _) as [bodyBytes' e'].
    simpl. by intros ->.
Qed.

Lemma C9_codec_errors_witness :
  Httputil.SetContent empty_codec rewritten_body caught_503.1 caught_503.2 =
  Httputil.SetContent failing_codec rewritten_body caught_503.1 caught_503.2.
Proof.
  apply (C9_codec_errors failing_codec empty_codec rewritten_body caught_503.1 caught_503.2).
  reflexivity.
Defined.

(** ** C1 and C2: the FILTERED state *)

(** The internal interceptor drops what is written to it once filtered. *)
Lemma PrettyError_Write_filtered buf cc w :
  PrettyError.caughtFilteredCode cc = true ->
  PrettyError.Write buf cc w = ((Z.of_nat (length buf), None), cc, w).
Proof.
  intros H. unfold PrettyError.Write.
  rewrite PrettyError_WriteHeader_closed by (rewrite H; apply orb_true_r).
  by rewrite H.
Qed.

(** The exported one hands it to the sink. *)
Lemma Httputil_Write_filtered buf cc w :
  Httputil.caughtFilteredCode cc = true ->
  Httputil.Write buf cc w = (rw_write (sink w) buf, cc, (sink_Write buf w).2).
Proof.
  intros H. unfold Httputil.Write.
  by rewrite Httputil_WriteHeader_closed by (rewrite H; apply orb_true_r).
Qed.

(** Once filtered, the three calls of the internal interceptor keep it
    filtered and leave the heap, the log and everything the sink was handed
    as they are; [Flush] still reaches the sink's flusher. *)
Lemma PrettyError_filtered_frozen o cc w :
  PrettyError.caughtFilteredCode cc = true ->
  match o with OpWriteHeader _ | OpWrite _ | OpFlush => True | _ => False end ->
  let s' := (PrettyError.step o (cc, w)).2 in
  s'.1 = cc /\ heap s'.2 = heap w /\ logs s'.2 = logs w /\
  rw_header (sink s'.2) = rw_header (sink w) /\
  rw_codes (sink s'.2) = rw_codes (sink w) /\
  rw_written (sink s'.2) = rw_written (sink w).
Proof.
  intros H Ho. destruct o as [f|c|buf| |]; try done; simpl.
  - rewrite PrettyError_WriteHeader_closed by (rewrite H; apply orb_true_r). done.
  - by rewrite PrettyError_Write_filtered.
  - unfold PrettyError.Flush.
    rewrite PrettyError_WriteHeader_closed by (rewrite H; apply orb_true_r).
    unfold sink_Flush. by destruct (rw_flusher _).
Qed.

(** Under any handler whatever, header updates included, a filtered
    internal interceptor stays filtered and the sink is handed no status,
    no byte and no header. *)
Lemma PrettyError_filtered_run (p : Prog Op Answer) cc w :
  PrettyError.caughtFilteredCode cc = true ->
  separate (PrettyError.headerMap cc) w ->
  let s' := run PrettyError.step p (cc, w) in
  PrettyError.caughtFilteredCode s'.1 = true /\
  rw_codes (sink s'.2) = rw_codes (sink w) /\
  rw_written (sink s'.2) = rw_written (sink w) /\
  sink_headers s'.2 = sink_headers w.
Proof.
  intros H Hsep. simpl.
  cut (separate (PrettyError.headerMap (run PrettyError.step p (cc, w)).1)
         (run PrettyError.step p (cc, w)).2 /\
       PrettyError.caughtFilteredCode (run PrettyError.step p (cc, w)).1 = true /\
       rw_codes (sink (run PrettyError.step p (cc, w)).2) = rw_codes (sink w) /\
       rw_written (sink (run PrettyError.step p (cc, w)).2) = rw_written (sink w) /\
       sink_headers (run PrettyError.step p (cc, w)).2 = sink_headers w); [tauto|].
  apply (run_invariant PrettyError.step
           (fun s => separate (PrettyError.headerMap s.1) s.2 /\
                     PrettyError.caughtFilteredCode s.1 = true /\
                     rw_codes (sink s.2) = rw_codes (sink w) /\
                     rw_written (sink s.2) = rw_written (sink w) /\
                     sink_headers s.2 = sink_headers w)); [|done].
  clear. intros o [cc' w'] (Hsep & H & Hc & Hw & Hh).
  split; [by apply PrettyError_step_separate|]. cbn [fst snd] in *.
  assert (forall o', match o' with OpWriteHeader _ | OpWrite _ | OpFlush => True | _ => False end ->
                     PrettyError.caughtFilteredCode (PrettyError.step o' (cc', w')).2.1 = true /\
                     rw_codes (sink (PrettyError.step o' (cc', w')).2.2) = rw_codes (sink w) /\
                     rw_written (sink (PrettyError.step o' (cc', w')).2.2) = rw_written (sink w) /\
                     sink_headers (PrettyError.step o' (cc', w')).2.2 = sink_headers w) as Hfrozen.
  { intros o' Ho'. pose proof (PrettyError_filtered_frozen o' cc' w' H Ho') as Hf.
    cbv zeta in Hf. destruct (PrettyError.step o' (cc', w')) as [a [cc'' w'']].
    cbn [fst snd] in *. destruct Hf as (-> & Hheap & _ & Hhd & -> & ->).
    unfold sink_headers, sink_Header in *. by rewrite Hheap, Hhd. }
  destruct o as [f|c|buf| |]; try (by apply Hfrozen).
  - pose proof (PrettyError_OpHeader_effect f cc' w' Hsep) as Hf. cbv zeta in Hf.
    destruct Hf as (H1 & H2 & _). rewrite H1, H2. split; [|done].
    simpl. destruct (PrettyError.Header cc' w') as [[l cc''] w''] eqn:E.
    apply PrettyError_Header_spec in E as (-> & _). done.
  - simpl. unfold PrettyError.Hijack, sink_Hijack, sink_headers, sink_Header in *.
    by destruct (rw_hijacker (sink w')).
Qed.

(** C1, on the code.  The exported interceptor, built for the range 500-599
    and given status 503, is filtered and the sink has been handed nothing;
    [Write] of "oops" then hands the sink those four bytes, where the
    internal interceptor in the same state hands it none and returns 4 and
    no error. *)
Theorem C1_exported_Write_reaches_sink_when_filtered :
  let x0 := Httputil.NewCodeCatcher server_errors ok_world in
  let x := Httputil.WriteHeader 503 x0.1 x0.2 in
  let s0 := PrettyError.newCodeCatcher server_errors ok_world in
  let s := PrettyError.WriteHeader 503 s0.1 s0.2 in
  Httputil.IsFilteredCode x.1 = true
  /\ rw_written (sink x.2) = []
  /\ rw_written (sink (Httputil.Write oops x.1 x.2).2) = oops
  /\ PrettyError.isFilteredCode s.1 = true
  /\ PrettyError.Write oops s.1 s.2 = ((4, None), s.1, s.2)
  /\ rw_written (sink (PrettyError.Write oops s.1 s.2).2) = [].
Proof. vm_compute. repeat split. Qed.

(** C2, on the code.  From the filtered state, status call, flush and write
    leave both interceptors filtered and the sink without status and with
    its headers untouched; the internal interceptor hands the sink no byte,
    the exported one hands it the four bytes written. *)
Theorem C2_exported_filtered_still_writes_body :
  let x0 := Httputil.NewCodeCatcher server_errors ok_world in
  let x := Httputil.WriteHeader 503 x0.1 x0.2 in
  let x' := run Httputil.step after_503 x in
  let s0 := PrettyError.newCodeCatcher server_errors ok_world in
  let s := PrettyError.WriteHeader 503 s0.1 s0.2 in
  let s' := run PrettyError.step after_503 s in
  Httputil.IsFilteredCode x.1 = true
  /\ Httputil.IsFilteredCode x'.1 = true
  /\ rw_codes (sink x'.2) = []
  /\ sink_headers x'.2 = sink_headers x.2
  /\ rw_written (sink x'.2) = oops
  /\ PrettyError.isFilteredCode s'.1 = true
  /\ rw_codes (sink s'.2) = []
  /\ sink_headers s'.2 = sink_headers s.2
  /\ rw_written (sink s'.2) = [].
Proof. vm_compute. repeat split. Qed.

(** * Further properties of the code *)

(** ** [CopyHeaders] *)

(** X1.  [CopyHeaders] never drops a name: the names of the result are those
    of the destination and those of the source. *)
Theorem X1_CopyHeaders_dom (dst src : http_Header) :
  dom (CopyHeaders dst src) = dom dst ∪ dom src.
Proof.
  apply set_eq. intros k.
  rewrite elem_of_union, !elem_of_dom, CopyHeaders_lookup.
  destruct (src !! k) as [vv|], (dst !! k) as [v|]; simpl; split;
    intros; try (by eauto); try (by (left + right); eauto).
  destruct H as [H|H]; by destruct H.
Qed.

(** X2.  Copying from an empty map changes nothing, and copying into an
    empty map gives the source. *)
Theorem X2_CopyHeaders_empty (h : http_Header) :
  CopyHeaders h ∅ = h /\ CopyHeaders ∅ h = h.
Proof.
  split; [apply CopyHeaders_empty|].
  apply map_eq. intros k. rewrite CopyHeaders_lookup, lookup_empty.
  by destruct (h !! k).
Qed.

(** X3.  Copying [a] and then [b] into a map is copying into it the result
    of copying [b] into [a]. *)
Theorem X3_CopyHeaders_assoc (d a b : http_Header) :
  CopyHeaders (CopyHeaders d a) b = CopyHeaders d (CopyHeaders a b).
Proof.
  apply map_eq. intros k. rewrite !CopyHeaders_lookup.
  destruct (a !! k) as [va|], (b !! k) as [vb|]; simpl; try done.
  by rewrite app_assoc.
Qed.

(** ** [Header] *)

(** X4.  [Header] allocates at most once: called again on what it returned,
    it returns the same map and changes nothing.  Holds for both
    interceptors, a [nil] [headerMap] included. *)
Theorem X4_Header_idempotent
    (cc : PrettyError.codeCatcher) (xc : Httputil.CodeCatcher) (w : World) :
  (let r := PrettyError.Header cc w in PrettyError.Header r.1.2 r.2 = r)
  /\ (let r := Httputil.Header xc w in Httputil.Header r.1.2 r.2 = r).
Proof.
  split; cbv zeta.
  - destruct (PrettyError.Header cc w) as [[l cc'] w'] eqn:E.
    apply PrettyError_Header_spec in E as (-> & _). done.
  - destruct (Httputil.Header xc w) as [[l xc'] w'] eqn:E.
    apply Httputil_Header_spec in E as (-> & _). done.
Qed.

(** ** What [WriteHeader] leaves alone *)

Lemma PrettyError_WriteHeader_io c cc w :
  sink_io (sink (PrettyError.WriteHeader c cc w).2) = sink_io (sink w) /\
  rw_header (sink (PrettyError.WriteHeader c cc w).2) = rw_header (sink w).
Proof.
  destruct (PrettyError_WriteHeader_cases c cc w) as [[_ ->]|[[Ho H]|[Ho H]]]; [done| |].
  - by rewrite PrettyError_WriteHeader_caught.
  - rewrite PrettyError_WriteHeader_commit by done.
    destruct (PrettyError.Header _ _) as [[l cc'] w'] eqn:E.
    apply PrettyError_Header_spec in E as (_ & Hs & _). unfold sink_io. simpl. by rewrite Hs.
Qed.

Lemma Httputil_WriteHeader_io c cc w :
  sink_io (sink (Httputil.WriteHeader c cc w).2) = sink_io (sink w) /\
  rw_header (sink (Httputil.WriteHeader c cc w).2) = rw_header (sink w).
Proof.
  destruct (Httputil_WriteHeader_cases c cc w) as [[_ ->]|[[Ho H]|[Ho H]]]; [done| |].
  - by rewrite Httputil_WriteHeader_caught.
  - rewrite Httputil_WriteHeader_commit by done.
    destruct (Httputil.Header _ _) as [[l cc'] w'] eqn:E.
    apply Httputil_Header_spec in E as (_ & Hs & _). unfold sink_io. simpl. by rewrite Hs.
Qed.

(** After [WriteHeader] the transition has been made. *)
Lemma PrettyError_WriteHeader_closes c cc w :
  PrettyError.headersSent (PrettyError.WriteHeader c cc w).1
  || PrettyError.caughtFilteredCode (PrettyError.WriteHeader c cc w).1 = true.
Proof.
  destruct (PrettyError_WriteHeader_cases c cc w) as [[Hc ->]|[[Ho H]|[Ho H]]]; [done| |].
  - rewrite PrettyError_WriteHeader_caught by done. apply orb_true_r.
  - rewrite PrettyError_WriteHeader_commit by done.
    by destruct (PrettyError.Header _ _) as [[l cc'] w'].
Qed.

Lemma Httputil_WriteHeader_closes c cc w :
  Httputil.headersSent (Httputil.WriteHeader c cc w).1
  || Httputil.caughtFilteredCode (Httputil.WriteHeader c cc w).1 = true.
Proof.
  destruct (Httputil_WriteHeader_cases c cc w) as [[Hc ->]|[[Ho H]|[Ho H]]]; [done| |].
  - rewrite Httputil_WriteHeader_caught by done. apply orb_true_r.
  - rewrite Httputil_WriteHeader_commit by done.
    by destruct (Httputil.Header _ _) as [[l cc'] w'].
Qed.

(** ** [Flush] and [Hijack] *)

(** X6.  [Flush] reaches the sink's flusher in every state of the
    interceptor, FILTERED included: the sink is flushed once more exactly
    when it is a [http.Flusher], and never otherwise.  Holds for both
    interceptors. *)
Theorem X6_Flush_always_forwarded
    (cc : PrettyError.codeCatcher) (xc : Httputil.CodeCatcher) (w : World) :
  rw_flushes (sink (PrettyError.Flush cc w).2)
    = (rw_flushes (sink w) + (if rw_flusher (sink w) then 1 else 0))%nat
  /\ rw_flushes (sink (Httputil.Flush xc w).2)
    = (rw_flushes (sink w) + (if rw_flusher (sink w) then 1 else 0))%nat.
Proof.
  split.
  - unfold PrettyError.Flush.
    pose proof (PrettyError_WriteHeader_io (PrettyError.code cc) cc w) as [H _].
    destruct (PrettyError.WriteHeader _ cc w) as [cc' w']. unfold sink_io in H.
    simpl in *. injection H as _ _ Hf Hn _ _ _ _. unfold sink_Flush. rewrite Hf, <- Hn.
    destruct (rw_flusher (sink w)); simpl; lia.
  - unfold Httputil.Flush.
    pose proof (Httputil_WriteHeader_io (Httputil.code xc) xc w) as [H _].
    destruct (Httputil.WriteHeader _ xc w) as [xc' w']. unfold sink_io in H.
    simpl in *. injection H as _ _ Hf Hn _ _ _ _. unfold sink_Flush. rewrite Hf, <- Hn.
    destruct (rw_flusher (sink w)); simpl; lia.
Qed.

(** X7.  [Hijack] goes past the state machine.  On a sink that is a
    [http.Hijacker] it calls the sink's [Hijack] once and returns the
    sink's own answer, an error included; on any other sink it calls
    nothing and returns the error that names the sink's type.  In both
    cases the interceptor, one that has made no transition included, the
    heap, the log and the status calls, bytes and flushes of the sink are
    as they were.  Holds for both interceptors. *)
Theorem X7_Hijack_bypasses_state_machine
    (cc : PrettyError.codeCatcher) (xc : Httputil.CodeCatcher) (w : World) :
  (let r := PrettyError.Hijack cc w in
   r.1.1 = (if rw_hijacker (sink w) then rw_hijack (sink w)
            else Some (rw_type (sink w) ++ " is not a http.Hijacker")%string)
   /\ rw_hijacks (sink r.2) = (rw_hijacks (sink w) + if rw_hijacker (sink w) then 1 else 0)%nat
   /\ r.1.2 = cc /\ heap r.2 = heap w /\ logs r.2 = logs w
   /\ rw_codes (sink r.2) = rw_codes (sink w) /\ rw_written (sink r.2) = rw_written (sink w)
   /\ rw_flushes (sink r.2) = rw_flushes (sink w))
  /\
  (let r := Httputil.Hijack xc w in
   r.1.1 = (if rw_hijacker (sink w) then rw_hijack (sink w)
            else Some (rw_type (sink w) ++ " is not a http.Hijacker")%string)
   /\ rw_hijacks (sink r.2) = (rw_hijacks (sink w) + if rw_hijacker (sink w) then 1 else 0)%nat
   /\ r.1.2 = xc /\ heap r.2 = heap w /\ logs r.2 = logs w
   /\ rw_codes (sink r.2) = rw_codes (sink w) /\ rw_written (sink r.2) = rw_written (sink w)
   /\ rw_flushes (sink r.2) = rw_flushes (sink w)).
Proof.
  unfold PrettyError.Hijack, Httputil.Hijack, sink_Hijack.
  destruct (rw_hijacker (sink w)); simpl; split_and!; try done; lia.
Qed.

(** ** The terminal states *)

Lemma PrettyError_step_closed o cc w :
  PrettyError.headersSent cc || PrettyError.caughtFilteredCode cc = true ->
  let cc' := (PrettyError.step o (cc, w)).2.1 in
  PrettyError.code cc' = PrettyError.code cc
  /\ PrettyError.caughtFilteredCode cc' = PrettyError.caughtFilteredCode cc
  /\ PrettyError.headersSent cc' = PrettyError.headersSent cc
  /\ PrettyError.httpCodeRanges cc' = PrettyError.httpCodeRanges cc.
Proof.
  intros Hc. destruct o as [f|c|buf| |]; simpl.
  - destruct (PrettyError.Header cc w) as [[l cc'] w'] eqn:E.
    apply PrettyError_Header_spec in E as (-> & _). done.
  - by rewrite PrettyError_WriteHeader_closed.
  - unfold PrettyError.Write. rewrite PrettyError_WriteHeader_closed by done.
    destruct (PrettyError.caughtFilteredCode cc) eqn:E;
      [|unfold sink_Write; destruct (rw_write _ _)]; simpl; by rewrite ?E.
  - unfold PrettyError.Flush. by rewrite PrettyError_WriteHeader_closed.
  - unfold PrettyError.Hijack. by destruct (sink_Hijack w).
Qed.

Lemma Httputil_xstep_closed cu o cc w :
  Httputil.headersSent cc || Httputil.caughtFilteredCode cc = true ->
  let cc' := (Httputil.xstep cu o (cc, w)).2.1 in
  Httputil.code cc' = Httputil.code cc
  /\ Httputil.caughtFilteredCode cc' = Httputil.caughtFilteredCode cc
  /\ Httputil.headersSent cc' = Httputil.headersSent cc
  /\ Httputil.httpCodeRanges cc' = Httputil.httpCodeRanges cc.
Proof.
  intros Hc. destruct o as [[f|c|buf| |]|f| |data|value| ]; simpl; try done.
  - destruct (Httputil.Header cc w) as [[l cc'] w'] eqn:E.
    apply Httputil_Header_spec in E as (-> & _). done.
  - by rewrite Httputil_WriteHeader_closed.
  - unfold Httputil.Write. rewrite Httputil_WriteHeader_closed by done.
    unfold sink_Write. by destruct (rw_write _ _).
  - unfold Httputil.Flush. by rewrite Httputil_WriteHeader_closed.
  - unfold Httputil.Hijack. by destruct (sink_Hijack w).
  - unfold Httputil.GetContent. by destruct (Decode _ _ _).
  - unfold Httputil.SetContent. destruct (Encode _ _ _) as [bodyBytes e].
    rewrite Httputil_WriteHeader_closed by done.
    destruct (negb _); unfold sink_Write; by destruct (rw_write _ _) as [n [e'|]].
Qed.

(** X5.  FILTERED and COMMITTED are terminal: from an interceptor that has
    made its transition, whatever is done with it afterwards, the recorded
    status and the two flags stay what they are.  Holds for the internal
    interceptor under every handler and for the exported one under every
    use of its methods. *)
Theorem X5_transition_is_final
    (cu : Compressutil) (p : Prog Op Answer) (q : Prog Httputil.XOp Httputil.XAnswer)
    (cc : PrettyError.codeCatcher) (xc : Httputil.CodeCatcher) (w : World) :
  PrettyError.headersSent cc || PrettyError.caughtFilteredCode cc = true ->
  Httputil.headersSent xc || Httputil.caughtFilteredCode xc = true ->
  (let cc' := (run PrettyError.step p (cc, w)).1 in
   PrettyError.getCode cc' = PrettyError.getCode cc
   /\ PrettyError.isFilteredCode cc' = PrettyError.isFilteredCode cc
   /\ PrettyError.headersSent cc' = PrettyError.headersSent cc)
  /\
  (let xc' := (run (Httputil.xstep cu) q (xc, w)).1 in
   Httputil.GetCode xc' = Httputil.GetCode xc
   /\ Httputil.IsFilteredCode xc' = Httputil.IsFilteredCode xc
   /\ Httputil.headersSent xc' = Httputil.headersSent xc).
Proof.
  intros Hc Hx. split; cbv zeta.
  - cut (PrettyError.code (run PrettyError.step p (cc, w)).1 = PrettyError.code cc
         /\ PrettyError.caughtFilteredCode (run PrettyError.step p (cc, w)).1
            = PrettyError.caughtFilteredCode cc
         /\ PrettyError.headersSent (run PrettyError.step p (cc, w)).1 = PrettyError.headersSent cc
         /\ PrettyError.httpCodeRanges (run PrettyError.step p (cc, w)).1
            = PrettyError.httpCodeRanges cc); [tauto|].
    apply (run_invariant PrettyError.step
             (fun s => PrettyError.code s.1 = PrettyError.code cc
                       /\ PrettyError.caughtFilteredCode s.1 = PrettyError.caughtFilteredCode cc
                       /\ PrettyError.headersSent s.1 = PrettyError.headersSent cc
                       /\ PrettyError.httpCodeRanges s.1 = PrettyError.httpCodeRanges cc));
      [|done].
    intros o [cc' w'] (H1 & H2 & H3 & H4). cbn [fst snd] in *.
    destruct (PrettyError_step_closed o cc' w') as (E1 & E2 & E3 & E4);
      [by rewrite H2, H3|]. by rewrite E1, E2, E3, E4.
  - cut (Httputil.code (run (Httputil.xstep cu) q (xc, w)).1 = Httputil.code xc
         /\ Httputil.caughtFilteredCode (run (Httputil.xstep cu) q (xc, w)).1
            = Httputil.caughtFilteredCode xc
         /\ Httputil.headersSent (run (Httputil.xstep cu) q (xc, w)).1 = Httputil.headersSent xc
         /\ Httputil.httpCodeRanges (run (Httputil.xstep cu) q (xc, w)).1
            = Httputil.httpCodeRanges xc); [tauto|].
    apply (run_invariant (Httputil.xstep cu)
             (fun s => Httputil.code s.1 = Httputil.code xc
                       /\ Httputil.caughtFilteredCode s.1 = Httputil.caughtFilteredCode xc
                       /\ Httputil.headersSent s.1 = Httputil.headersSent xc
                       /\ Httputil.httpCodeRanges s.1 = Httputil.httpCodeRanges xc));
      [|done].
    intros o [xc' w'] (H1 & H2 & H3 & H4). cbn [fst snd] in *.
    destruct (Httputil_xstep_closed cu o xc' w') as (E1 & E2 & E3 & E4);
      [by rewrite H2, H3|]. by rewrite E1, E2, E3, E4.
Qed.

Lemma X5_transition_is_final_witness :
  let s := PrettyError.WriteHeader 503 (PrettyError.newCodeCatcher server_errors ok_world).1
             (PrettyError.newCodeCatcher server_errors ok_world).2 in
  PrettyError.getCode (run PrettyError.step after_503 s).1 = 503
  /\ PrettyError.isFilteredCode (run PrettyError.step after_503 s).1 = true.
Proof.
  pose proof (X5_transition_is_final identity_codec after_503 Done
                (PrettyError.WriteHeader 503 (PrettyError.newCodeCatcher server_errors ok_world).1
                   (PrettyError.newCodeCatcher server_errors ok_world).2).1
                (Httputil.WriteHeader 503 (Httputil.NewCodeCatcher server_errors ok_world).1
                   (Httputil.NewCodeCatcher server_errors ok_world).2).1
                (PrettyError.WriteHeader 503 (PrettyError.newCodeCatcher server_errors ok_world).1
                   (PrettyError.newCodeCatcher server_errors ok_world).2).2
                eq_refl eq_refl) as [(H1 & H2 & _) _].
  split; [exact H1 | exact H2].
Defined.

(** ** The status the sink is handed *)

Lemma PrettyError_WriteHeader_codes init c cc w :
  rw_codes (sink w) = (init ++ if PrettyError.headersSent cc then [PrettyError.code cc] else [])%list ->
  rw_codes (sink (PrettyError.WriteHeader c cc w).2) =
    (init ++ if PrettyError.headersSent (PrettyError.WriteHeader c cc w).1
             then [PrettyError.code (PrettyError.WriteHeader c cc w).1] else [])%list.
Proof.
  intros Hi.
  destruct (PrettyError_WriteHeader_cases c cc w) as [[_ ->]|[[Ho H]|[Ho H]]]; [done| |].
  - rewrite PrettyError_WriteHeader_caught by done. simpl.
    destruct Ho as [Ho _]. by rewrite Ho in *.
  - rewrite PrettyError_WriteHeader_commit by done.
    destruct (PrettyError.Header _ _) as [[l cc'] w'] eqn:E.
    apply PrettyError_Header_spec in E as (-> & Hs & _). simpl.
    destruct Ho as [Ho _]. rewrite Ho, app_nil_r in Hi. by rewrite Hs, Hi.
Qed.

Lemma Httputil_WriteHeader_codes init c cc w :
  rw_codes (sink w) = (init ++ if Httputil.headersSent cc then [Httputil.code cc] else [])%list ->
  rw_codes (sink (Httputil.WriteHeader c cc w).2) =
    (init ++ if Httputil.headersSent (Httputil.WriteHeader c cc w).1
             then [Httputil.code (Httputil.WriteHeader c cc w).1] else [])%list.
Proof.
  intros Hi.
  destruct (Httputil_WriteHeader_cases c cc w) as [[_ ->]|[[Ho H]|[Ho H]]]; [done| |].
  - rewrite Httputil_WriteHeader_caught by done. simpl.
    destruct Ho as [Ho _]. by rewrite Ho in *.
  - rewrite Httputil_WriteHeader_commit by done.
    destruct (Httputil.Header _ _) as [[l cc'] w'] eqn:E.
    apply Httputil_Header_spec in E as (-> & Hs & _). simpl.
    destruct Ho as [Ho _]. rewrite Ho, app_nil_r in Hi. by rewrite Hs, Hi.
Qed.

Lemma PrettyError_step_codes init o s :
  rw_codes (sink s.2) = (init ++ if PrettyError.headersSent s.1 then [PrettyError.code s.1] else [])%list ->
  rw_codes (sink (PrettyError.step o s).2.2) =
    (init ++ if PrettyError.headersSent (PrettyError.step o s).2.1
             then [PrettyError.code (PrettyError.step o s).2.1] else [])%list.
Proof.
  destruct s as [cc w]. cbn [fst snd]. intros Hi. destruct o as [f|c|buf| |]; simpl.
  - destruct (PrettyError.Header cc w) as [[l cc'] w'] eqn:E.
    apply PrettyError_Header_spec in E as (-> & Hs & _). simpl. by rewrite Hs.
  - by apply PrettyError_WriteHeader_codes.
  - unfold PrettyError.Write.
    pose proof (PrettyError_WriteHeader_codes init (PrettyError.code cc) cc w Hi) as H.
    destruct (PrettyError.WriteHeader _ cc w) as [cc' w']. simpl in H.
    destruct (PrettyError.caughtFilteredCode cc'); [done|].
    unfold sink_Write. by destruct (rw_write _ _).
  - unfold PrettyError.Flush.
    pose proof (PrettyError_WriteHeader_codes init (PrettyError.code cc) cc w Hi) as H.
    destruct (PrettyError.WriteHeader _ cc w) as [cc' w']. simpl in *.
    unfold sink_Flush. by destruct (rw_flusher (sink w')).
  - unfold PrettyError.Hijack, sink_Hijack. by destruct (rw_hijacker (sink w)).
Qed.

Lemma Httputil_xstep_codes cu init o s :
  rw_codes (sink s.2) = (init ++ if Httputil.headersSent s.1 then [Httputil.code s.1] else [])%list ->
  rw_codes (sink (Httputil.xstep cu o s).2.2) =
    (init ++ if Httputil.headersSent (Httputil.xstep cu o s).2.1
             then [Httputil.code (Httputil.xstep cu o s).2.1] else [])%list.
Proof.
  destruct s as [cc w]. cbn [fst snd]. intros Hi.
  destruct o as [[f|c|buf| |]|f| |data|value| ]; simpl; try done.
  - destruct (Httputil.Header cc w) as [[l cc'] w'] eqn:E.
    apply Httputil_Header_spec in E as (-> & Hs & _). simpl. by rewrite Hs.
  - by apply Httputil_WriteHeader_codes.
  - unfold Httputil.Write.
    pose proof (Httputil_WriteHeader_codes init (Httputil.code cc) cc w Hi) as H.
    destruct (Httputil.WriteHeader _ cc w) as [cc' w']. simpl in H.
    unfold sink_Write. by destruct (rw_write _ _).
  - unfold Httputil.Flush.
    pose proof (Httputil_WriteHeader_codes init (Httputil.code cc) cc w Hi) as H.
    destruct (Httputil.WriteHeader _ cc w) as [cc' w']. simpl in *.
    unfold sink_Flush. by destruct (rw_flusher (sink w')).
  - unfold Httputil.Hijack, sink_Hijack. by destruct (rw_hijacker (sink w)).
  - unfold Httputil.GetContent. by destruct (Decode _ _ _).
  - unfold Httputil.SetContent. destruct (Encode _ _ _) as [bodyBytes e].
    assert (rw_codes (sink (if negb (Httputil.wroteHeader cc) then Httputil.WriteHeader 200 cc w
                            else (cc, w)).2) =
            (init ++ if Httputil.headersSent
                          (if negb (Httputil.wroteHeader cc) then Httputil.WriteHeader 200 cc w
                           else (cc, w)).1
                     then [Httputil.code
                             (if negb (Httputil.wroteHeader cc) then Httputil.WriteHeader 200 cc w
                              else (cc, w)).1] else [])%list) as H.
    { destruct (negb _); [by apply Httputil_WriteHeader_codes | done]. }
    destruct (if negb _ then _ else _) as [cc' w']. simpl in H.
    unfold sink_Write. by destruct (rw_write _ _) as [n [e'|]].
Qed.

(** X8.  The sink is handed at most one status, and it is the recorded one:
    at every state reached from the constructor its status calls are those
    it had before, followed by [getCode] once [headersSent] is set and by
    nothing before that.  Holds for the internal interceptor under every
    handler and for the exported one under every use of its methods. *)
Theorem X8_at_most_one_status_and_it_is_the_recorded_one
    (R : HTTPCodeRanges) (w : World) (cu : Compressutil)
    (p : Prog Op Answer) (q : Prog Httputil.XOp Httputil.XAnswer) :
  (let s := run PrettyError.step p (PrettyError.newCodeCatcher R w) in
   rw_codes (sink s.2) =
     (rw_codes (sink w) ++ if PrettyError.headersSent s.1 then [PrettyError.getCode s.1] else [])%list)
  /\
  (let s := run (Httputil.xstep cu) q (Httputil.NewCodeCatcher R w) in
   rw_codes (sink s.2) =
     (rw_codes (sink w) ++ if Httputil.headersSent s.1 then [Httputil.GetCode s.1] else [])%list).
Proof.
  split; cbv zeta.
  - apply (run_invariant PrettyError.step
             (fun s => rw_codes (sink s.2) =
                         (rw_codes (sink w) ++
                          if PrettyError.headersSent s.1 then [PrettyError.code s.1] else [])%list)).
    + intros o s. apply PrettyError_step_codes.
    + simpl. by rewrite app_nil_r.
  - apply (run_invariant (Httputil.xstep cu)
             (fun s => rw_codes (sink s.2) =
                         (rw_codes (sink w) ++
                          if Httputil.headersSent s.1 then [Httputil.code s.1] else [])%list)).
    + intros o s. apply Httputil_xstep_codes.
    + simpl. by rewrite app_nil_r.
Qed.

(** ** No status, byte or header reaches the sink before the commit *)

Lemma PrettyError_step_written_unsent o cc w :
  PrettyError.headersSent (PrettyError.step o (cc, w)).2.1 = false ->
  rw_written (sink (PrettyError.step o (cc, w)).2.2) = rw_written (sink w).
Proof.
  destruct o as [f|c|buf| |]; simpl.
  - destruct (PrettyError.Header cc w) as [[l cc'] w'] eqn:E.
    apply PrettyError_Header_spec in E as (_ & Hs & _). simpl. by rewrite Hs.
  - intros _. apply PrettyError_WriteHeader_frame.
  - unfold PrettyError.Write.
    pose proof (PrettyError_WriteHeader_frame (PrettyError.code cc) cc w) as [H _].
    pose proof (PrettyError_WriteHeader_closes (PrettyError.code cc) cc w) as Hc.
    destruct (PrettyError.WriteHeader _ cc w) as [cc' w']. simpl in *.
    destruct (PrettyError.caughtFilteredCode cc'); [done|].
    rewrite orb_false_r in Hc. unfold sink_Write. destruct (rw_write _ _). simpl. congruence.
  - unfold PrettyError.Flush.
    pose proof (PrettyError_WriteHeader_frame (PrettyError.code cc) cc w) as [H _].
    destruct (PrettyError.WriteHeader _ cc w) as [cc' w']. simpl in *. intros _.
    rewrite <- H. unfold sink_Flush. by destruct (rw_flusher (sink w')).
  - intros _. unfold PrettyError.Hijack, sink_Hijack. by destruct (rw_hijacker (sink w)).
Qed.

Lemma PrettyError_step_logs o cc w :
  logs (PrettyError.step o (cc, w)).2.2 = logs w.
Proof.
  destruct o as [f|c|buf| |]; simpl.
  - destruct (PrettyError.Header cc w) as [[l cc'] w'] eqn:E.
    by apply PrettyError_Header_spec in E as (_ & _ & Hl & _).
  - apply PrettyError_WriteHeader_frame.
  - unfold PrettyError.Write.
    pose proof (PrettyError_WriteHeader_frame (PrettyError.code cc) cc w) as (_ & _ & H).
    destruct (PrettyError.WriteHeader _ cc w) as [cc' w']. simpl in *.
    destruct (PrettyError.caughtFilteredCode cc'); [done|].
    unfold sink_Write. by destruct (rw_write _ _).
  - unfold PrettyError.Flush.
    pose proof (PrettyError_WriteHeader_frame (PrettyError.code cc) cc w) as (_ & _ & H).
    destruct (PrettyError.WriteHeader _ cc w) as [cc' w']. simpl in *.
    rewrite <- H. unfold sink_Flush. by destruct (rw_flusher (sink w')).
  - unfold PrettyError.Hijack, sink_Hijack. by destruct (rw_hijacker (sink w)).
Qed.

Lemma PrettyError_run_untouched (p : Prog Op Answer) cc w :
  separate (PrettyError.headerMap cc) w ->
  PrettyError.headersSent cc && PrettyError.caughtFilteredCode cc = false ->
  let s := run PrettyError.step p (cc, w) in
  logs s.2 = logs w
  /\ (PrettyError.isFilteredCode s.1 = true -> PrettyError.headersSent s.1 = false)
  /\ (PrettyError.headersSent s.1 = false ->
      PrettyError.headersSent cc = false
      /\ rw_written (sink s.2) = rw_written (sink w)
      /\ sink_headers s.2 = sink_headers w).
Proof.
  intros Hsep Hfl. cbv zeta.
  cut (separate (PrettyError.headerMap (run PrettyError.step p (cc, w)).1)
         (run PrettyError.step p (cc, w)).2
       /\ PrettyError.headersSent (run PrettyError.step p (cc, w)).1
          && PrettyError.caughtFilteredCode (run PrettyError.step p (cc, w)).1 = false
       /\ logs (run PrettyError.step p (cc, w)).2 = logs w
       /\ (PrettyError.headersSent (run PrettyError.step p (cc, w)).1 = false ->
           PrettyError.headersSent cc = false
           /\ rw_written (sink (run PrettyError.step p (cc, w)).2) = rw_written (sink w)
           /\ sink_headers (run PrettyError.step p (cc, w)).2 = sink_headers w)).
  { intros (_ & Hf & Hl & Hu). split; [done|]. split; [|done].
    unfold PrettyError.isFilteredCode. intros E. rewrite E, andb_true_r in Hf. done. }
  apply (run_invariant PrettyError.step
           (fun s => separate (PrettyError.headerMap s.1) s.2
                     /\ PrettyError.headersSent s.1 && PrettyError.caughtFilteredCode s.1 = false
                     /\ logs s.2 = logs w
                     /\ (PrettyError.headersSent s.1 = false ->
                         PrettyError.headersSent cc = false
                         /\ rw_written (sink s.2) = rw_written (sink w)
                         /\ sink_headers s.2 = sink_headers w))); [|done].
  clear. intros o [cc' w'] (Hsep & Hf & Hl & Hu). cbn [fst snd] in *.
  split; [by apply (PrettyError_step_separate o (cc', w'))|].
  split; [by apply (PrettyError_step_flags o (cc', w'))|].
  split; [by rewrite PrettyError_step_logs|].
  intros Hun.
  assert (PrettyError.headersSent cc' = false) as Hun'.
  { destruct (PrettyError.headersSent cc') eqn:E; [|done].
    destruct (PrettyError_step_closed o cc' w') as (_ & _ & E' & _); [by rewrite E|].
    cbv zeta in E'. congruence. }
  destruct (Hu Hun') as (H0 & Hw & Hh). split; [done|]. split.
  - by rewrite PrettyError_step_written_unsent.
  - rewrite PrettyError_step_sink_headers; [done..|congruence].
Qed.

(** X9.  Until the internal interceptor commits, the sink is handed no
    status, no body byte and no header through it: at every state reached
    from the constructor in which [headersSent] is false, the sink has the
    status calls, the bytes and the header map it had at the start; and a
    filtered interceptor is in such a state.  [Flush] and [Hijack] are
    forwarded in every state, so the sink's flushes and hijacks are not
    part of this statement. *)
Theorem X9_no_status_byte_or_header_before_commit
    (R : HTTPCodeRanges) (w : World) (p : Prog Op Answer) :
  sink_Header w ∈ dom (heap w) ->
  let s := run PrettyError.step p (PrettyError.newCodeCatcher R w) in
  (PrettyError.isFilteredCode s.1 = true -> PrettyError.headersSent s.1 = false)
  /\ (PrettyError.headersSent s.1 = false ->
      rw_codes (sink s.2) = rw_codes (sink w)
      /\ rw_written (sink s.2) = rw_written (sink w)
      /\ sink_headers s.2 = sink_headers w).
Proof.
  intros Hw. cbv zeta.
  pose proof (run_invariant PrettyError.step
                (fun s => rw_codes (sink s.2) =
                            (rw_codes (sink w) ++
                             if PrettyError.headersSent s.1 then [PrettyError.code s.1] else [])%list)
                (PrettyError_step_codes (rw_codes (sink w))) p (PrettyError.newCodeCatcher R w)) as Hc.
  simpl in Hc. specialize (Hc (eq_sym (app_nil_r _))).
  pose proof (separate_alloc w Hw) as Hsep.
  assert (sink_headers (PrettyError.newCodeCatcher R w).2 = sink_headers w) as Hh.
  { unfold sink_headers, sink_Header, make_http_Header. simpl. apply deref_fresh, is_fresh. }
  assert (rw_written (sink (PrettyError.newCodeCatcher R w).2) = rw_written (sink w)) as Hwr by done.
  destruct (PrettyError.newCodeCatcher R w) as [cc0 w0] eqn:E0.
  assert (PrettyError.headerMap cc0 = Some (make_http_Header (heap w)).1
          /\ w0 = set_heap (make_http_Header (heap w)).2 w
          /\ PrettyError.headersSent cc0 && PrettyError.caughtFilteredCode cc0 = false)
    as (Hm & -> & Hfl).
  { unfold PrettyError.newCodeCatcher, make_http_Header in E0. by injection E0 as <- <-. }
  rewrite <- Hm in Hsep.
  pose proof (PrettyError_run_untouched p cc0 _ Hsep Hfl) as (_ & Hf & Hu).
  cbv zeta in Hf, Hu. cbn [fst snd] in *. split; [exact Hf|].
  intros Hun. destruct (Hu Hun) as (_ & H1 & H2).
  rewrite Hc, Hun, app_nil_r, H1, H2. done.
Qed.

Lemma X9_no_status_byte_or_header_before_commit_witness :
  let s := run PrettyError.step
             (Do (OpWriteHeader 503) (fun _ => after_503))
             (PrettyError.newCodeCatcher server_errors ok_world) in
  PrettyError.isFilteredCode s.1 = true
  /\ rw_codes (sink s.2) = []
  /\ rw_written (sink s.2) = []
  /\ sink_headers s.2 = ∅.
Proof.
  pose proof (X9_no_status_byte_or_header_before_commit server_errors ok_world
                (Do (OpWriteHeader 503) (fun _ => after_503))) as H.
  destruct H as [Hf Hu].
  - apply elem_of_dom. exists ∅. reflexivity.
  - split; [reflexivity|]. apply Hu. apply Hf. reflexivity.
Defined.

(** ** [ServeHTTP] on a request it supports *)

Lemma ServeHTTP_served (bodyRewrite : PrettyError.rewriteBody) (req : Request) (w : World) :
  SupportsProcessing req = true ->
  PrettyError.ServeHTTP bodyRewrite req w =
    let s := served bodyRewrite req w in
    let w1 := log_Printf "Status: %d" [ArgInt (PrettyError.getCode s.1)]
                (log_Printf "After serve" [] s.2) in
    if negb (PrettyError.isFilteredCode s.1) then w1
    else log_Printf "Status: %d" [ArgInt (PrettyError.getCode s.1)] w1.
Proof.
  intros Hs. unfold PrettyError.ServeHTTP, served. rewrite Hs. cbn [negb].
  destruct (PrettyError.newCodeCatcher _ _) as [c0 w0].
  by destruct (run _ _ _) as [c1 w1].
Qed.

Lemma served_untouched (bodyRewrite : PrettyError.rewriteBody) (req : Request) (w : World) :
  sink_Header w ∈ dom (heap w) ->
  let s := served bodyRewrite req w in
  logs s.2 = (logs w ++ [("Before catcher", []); ("Catcher: %v", [ArgCatcher 200 false false])])%list
  /\ (PrettyError.isFilteredCode s.1 = true ->
      rw_codes (sink s.2) = rw_codes (sink w)
      /\ rw_written (sink s.2) = rw_written (sink w)
      /\ sink_headers s.2 = sink_headers w).
Proof.
  intros Hw. cbv zeta. unfold served.
  pose proof (separate_alloc (log_Printf "Before catcher" [] w) Hw) as Hsep.
  pose proof (run_invariant PrettyError.step
                (fun s => rw_codes (sink s.2) =
                            (rw_codes (sink w) ++
                             if PrettyError.headersSent s.1 then [PrettyError.code s.1] else [])%list)
                (PrettyError_step_codes (rw_codes (sink w)))
                (PrettyError.next bodyRewrite req)) as Hc.
  unfold PrettyError.newCodeCatcher, make_http_Header in *. cbn [fst snd] in *.
  match goal with
  | |- context [run PrettyError.step _ (?c, ?w0)] =>
      pose proof (PrettyError_run_untouched (PrettyError.next bodyRewrite req) c w0) as Hu;
      specialize (Hc (c, w0))
  end.
  cbv zeta in Hu. cbn [fst snd] in *.
  destruct Hu as (Hl & Hf & Hu); [exact Hsep | reflexivity |].
  specialize (Hc (eq_sym (app_nil_r _))).
  split.
  - rewrite Hl. cbn. by rewrite <- app_assoc.
  - intros E. destruct (Hu (Hf E)) as (_ & H1 & H2).
    rewrite Hc, (Hf E), app_nil_r, H1, H2. split; [done|]. split; [done|].
    unfold sink_headers, sink_Header. cbn. apply deref_fresh, is_fresh.
Qed.

(** X10.  For a request it supports, [ServeHTTP] itself hands the sink
    nothing: sink and heap are those the next handler left through the
    catcher, and it adds four log lines, five when the response was
    filtered.  A filtered response therefore ends with the sink holding the
    status calls, the bytes and the headers it had before the request: no
    substitute body is written. *)
Theorem X10_ServeHTTP_filtered_sends_nothing
    (bodyRewrite : PrettyError.rewriteBody) (req : Request) (w : World) :
  SupportsProcessing req = true ->
  sink_Header w ∈ dom (heap w) ->
  let s := served bodyRewrite req w in
  let w' := PrettyError.ServeHTTP bodyRewrite req w in
  sink w' = sink s.2 /\ heap w' = heap s.2
  /\ logs w' =
       (logs w ++ [("Before catcher", []);
                   ("Catcher: %v", [ArgCatcher 200 false false]);
                   ("After serve", []);
                   ("Status: %d", [ArgInt (PrettyError.getCode s.1)])]
        ++ if PrettyError.isFilteredCode s.1
           then [("Status: %d", [ArgInt (PrettyError.getCode s.1)])] else [])%list
  /\ (PrettyError.isFilteredCode s.1 = true ->
      rw_codes (sink w') = rw_codes (sink w)
      /\ rw_written (sink w') = rw_written (sink w)
      /\ sink_headers w' = sink_headers w).
Proof.
  intros Hs Hw. cbv zeta. rewrite (ServeHTTP_served _ _ _ Hs). cbv zeta.
  destruct (served_untouched bodyRewrite req w Hw) as [Hl Hu].
  destruct (served bodyRewrite req w) as [c1 w1]. cbn [fst snd] in *.
  destruct (PrettyError.isFilteredCode c1) eqn:E; cbn [negb];
    (split; [done|]); (split; [done|]); split.
  - cbn. rewrite Hl, <- !app_assoc. done.
  - intros _. by apply Hu.
  - cbn. rewrite Hl, <- !app_assoc. done.
  - done.
Qed.

Lemma X10_ServeHTTP_filtered_sends_nothing_witness :
  let rb := {| PrettyError.name := "pretty-error";
               PrettyError.next := fun _ => Do (OpWriteHeader 503) (fun _ => after_503);
               PrettyError.rewrites := [];
               PrettyError.lastModified := false;
               PrettyError.rb_httpCodeRanges := server_errors |} in
  let req := {| Method := "GET"; req_Header := ∅ |} in
  rw_codes (sink (PrettyError.ServeHTTP rb req ok_world)) = []
  /\ rw_written (sink (PrettyError.ServeHTTP rb req ok_world)) = []
  /\ sink_headers (PrettyError.ServeHTTP rb req ok_world) = ∅.
Proof.
  cbv zeta.
  refine (proj2 (proj2 (proj2 (X10_ServeHTTP_filtered_sends_nothing _ _ ok_world _ _))) _).
  - reflexivity.
  - apply elem_of_dom. exists ∅. reflexivity.
  - reflexivity.
Defined.

(** ** The interceptor against the bare sink *)

Lemma run_simulation {O A S1 S2 : Type}
    (step1 : O -> S1 -> A * S1) (step2 : O -> S2 -> A * S2) (Rel : S1 -> S2 -> Prop) :
  (forall o s1 s2, Rel s1 s2 ->
     (step1 o s1).1 = (step2 o s2).1 /\ Rel (step1 o s1).2 (step2 o s2).2) ->
  forall (p : Prog O A) s1 s2, Rel s1 s2 -> Rel (run step1 p s1) (run step2 p s2).
Proof.
  intros Hstep p. induction p as [|o k IH]; intros s1 s2 HR; simpl; [exact HR|].
  destruct (Hstep o s1 s2 HR) as [Ha HR'].
  destruct (step1 o s1) as [a1 s1'], (step2 o s2) as [a2 s2']. simpl in *. subst a2.
  by apply IH.
Qed.

Lemma PrettyError_Header_buffer cc w :
  deref (heap (PrettyError.Header cc w).2) (PrettyError.Header cc w).1.1
    = PrettyError_headerBuffer cc w.
Proof.
  unfold PrettyError.Header, PrettyError_headerBuffer, make_http_Header.
  destruct (PrettyError.headerMap cc); simpl; [done|]. by rewrite deref_insert_eq.
Qed.

Lemma PrettyError_WriteHeader_ranges c cc w :
  PrettyError.httpCodeRanges (PrettyError.WriteHeader c cc w).1 = PrettyError.httpCodeRanges cc.
Proof.
  destruct (PrettyError_WriteHeader_cases c cc w) as [[_ ->]|[[Ho H]|[Ho H]]]; [done| |].
  - by rewrite PrettyError_WriteHeader_caught.
  - rewrite PrettyError_WriteHeader_commit by done.
    destruct (PrettyError.Header _ _) as [[l cc'] w'] eqn:E.
    by apply PrettyError_Header_spec in E as (-> & _).
Qed.

Lemma PrettyError_WriteHeader_buffer c cc w :
  separate (PrettyError.headerMap cc) w ->
  PrettyError_headerBuffer (PrettyError.WriteHeader c cc w).1 (PrettyError.WriteHeader c cc w).2
    = PrettyError_headerBuffer cc w.
Proof.
  intros Hsep.
  destruct (PrettyError_WriteHeader_cases c cc w) as [[_ ->]|[[Ho H]|[Ho H]]]; [done| |].
  - by rewrite PrettyError_WriteHeader_caught.
  - rewrite PrettyError_WriteHeader_commit by done.
    pose proof (PrettyError_Header_buffer (PrettyError.set_code c cc) w) as Hb.
    destruct (PrettyError.Header _ _) as [[l cc'] w'] eqn:E.
    pose proof (PrettyError_Header_spec _ _ _ _ _ E) as (_ & Hs & _).
    apply PrettyError_Header_separate in E as ([_ Hne] & Hl & _); [|done].
    destruct (Hne l Hl) as [_ Hne']. cbn [fst snd] in *.
    unfold PrettyError_headerBuffer at 1. simpl. rewrite Hl.
    rewrite deref_insert_ne; [exact Hb|]. unfold sink_Header in *. by rewrite <- Hs.
Qed.

Lemma PrettyError_WriteHeader_passes c cc w d :
  passes_through (cc, w) d ->
  passes_through (PrettyError.WriteHeader c cc w) d.
Proof.
  intros (Hsep & Hm & Hc & Hio & Hb). cbn [fst snd] in *.
  split; [by apply PrettyError_WriteHeader_separate|].
  split; [by rewrite PrettyError_WriteHeader_ranges|].
  split.
  - destruct (PrettyError.headersSent cc) eqn:E.
    + by rewrite PrettyError_WriteHeader_closed by (by rewrite E).
    + pose proof (PrettyError_WriteHeader_isFilteredCode c cc w (conj E Hc)) as H.
      unfold PrettyError.isFilteredCode in H. by rewrite H.
  - split; [|by rewrite PrettyError_WriteHeader_buffer].
    by rewrite (proj1 (PrettyError_WriteHeader_io c cc w)).
Qed.

Lemma PrettyError_step_passes o s d :
  passes_through s d ->
  (PrettyError.step o s).1 = (sink_step o d).1
  /\ passes_through (PrettyError.step o s).2 (sink_step o d).2.
Proof.
  destruct s as [cc w]. intros HR. destruct o as [f|c|buf| |].
  - destruct HR as (Hsep & Hm & Hc & Hio & Hb). cbn [fst snd] in *.
    pose proof (PrettyError_OpHeader_effect f cc w Hsep) as (H1 & H2 & H3).
    pose proof (PrettyError_step_separate (OpHeader f) (cc, w) Hsep) as Hsep'.
    pose proof (PrettyError_Header_buffer cc w) as Hhb.
    simpl in *. destruct (PrettyError.Header cc w) as [[l cc'] w'] eqn:E.
    pose proof (PrettyError_Header_spec _ _ _ _ _ E) as (-> & _).
    cbn [fst snd] in *. rewrite Hhb, Hb in Hsep', H3, H2, H1 |- *. split; [done|].
    split; [done|]. split; [done|]. split; [done|].
    split; [change (sink w' = sink w) in H1; simpl; by rewrite H1|].
    cbn [fst snd]. rewrite H3. unfold sink_headers, sink_Header. simpl.
    by rewrite deref_insert_eq.
  - split; [done|]. apply (PrettyError_WriteHeader_passes c) in HR.
    destruct HR as (Hsep & Hm & Hc & Hio & Hb). done.
  - apply (PrettyError_WriteHeader_passes (PrettyError.code cc)) in HR.
    simpl. unfold PrettyError.Write.
    destruct (PrettyError.WriteHeader _ cc w) as [cc' w'].
    destruct HR as (Hsep & Hm & Hc & Hio & Hb). cbn [fst snd] in *. rewrite Hc.
    unfold sink_io in Hio. injection Hio as Hi1 Hi2 Hi3 Hi4 Hi5 Hi6 Hi7 Hi8.
    unfold sink_Write. rewrite Hi2. destruct (rw_write (sink d) buf) as [n err].
    split; [done|]. split; [done|]. split; [done|]. split; [done|].
    split; [|done]. unfold sink_io. simpl. congruence.
  - apply (PrettyError_WriteHeader_passes (PrettyError.code cc)) in HR.
    simpl. unfold PrettyError.Flush.
    destruct (PrettyError.WriteHeader _ cc w) as [cc' w'].
    destruct HR as (Hsep & Hm & Hc & Hio & Hb). cbn [fst snd] in *.
    unfold sink_io in Hio. injection Hio as Hi1 Hi2 Hi3 Hi4 Hi5 Hi6 Hi7 Hi8.
    split; [done|]. unfold sink_Flush. rewrite Hi3.
    destruct (rw_flusher (sink d)) eqn:Ef.
    + split; [done|]. split; [done|]. split; [done|]. split; [|done].
      unfold sink_io. simpl. congruence.
    + split; [done|]. split; [done|]. split; [done|]. split; [|done].
      unfold sink_io. cbn [fst snd]. congruence.
  - destruct HR as (Hsep & Hm & Hc & Hio & Hb). cbn [fst snd] in *.
    unfold sink_io in Hio. injection Hio as Hi1 Hi2 Hi3 Hi4 Hi5 Hi6 Hi7 Hi8.
    simpl. unfold PrettyError.Hijack, sink_Hijack. rewrite Hi5, Hi7, Hi8.
    destruct (rw_hijacker (sink d)) eqn:Eh; simpl.
    + split; [done|]. split; [done|]. split; [done|]. split; [done|]. split; [|done].
      unfold sink_io. simpl. congruence.
    + split; [done|]. split; [done|]. split; [done|]. split; [done|]. split; [|done].
      unfold sink_io. cbn [fst snd]. congruence.
Qed.

(** X11.  With ranges that no status lies in, the internal interceptor is
    transparent for the body.  Take a sink that is itself a [http.Flusher]
    and a [http.Hijacker], as the catcher is, and whose header map exists
    and is empty; take a handler that uses its writer through [Header],
    [WriteHeader], [Write], [Flush] and [Hijack] only, choosing each call
    from the answers to the earlier ones.  Run on the catcher it hands the
    sink the same bytes in the same order, as many flushes and as many
    hijacks as run on the sink itself; the interceptor is not filtered, and
    its private buffer holds the header map the sink ends with in the
    direct run.  A handler that probes its writer for any other optional
    interface is outside this statement. *)
Theorem X11_transparent_when_nothing_matches
    (R : HTTPCodeRanges) (w : World) (p : Prog Op Answer) :
  matches_nothing R ->
  rw_flusher (sink w) = true ->
  rw_hijacker (sink w) = true ->
  sink_Header w ∈ dom (heap w) ->
  sink_headers w = ∅ ->
  let s := run PrettyError.step p (PrettyError.newCodeCatcher R w) in
  let d := run sink_step p w in
  rw_written (sink s.2) = rw_written (sink d)
  /\ rw_flushes (sink s.2) = rw_flushes (sink d)
  /\ rw_hijacks (sink s.2) = rw_hijacks (sink d)
  /\ PrettyError.isFilteredCode s.1 = false
  /\ PrettyError_headerBuffer s.1 s.2 = sink_headers d.
Proof.
  intros Hm _ _ Hw He. cbv zeta.
  pose proof (run_simulation PrettyError.step sink_step passes_through
                PrettyError_step_passes p (PrettyError.newCodeCatcher R w) w) as H.
  destruct H as (_ & _ & Hc & Hio & Hb).
  - split; [by apply separate_alloc|]. split; [done|]. split; [done|]. split; [done|].
    rewrite He. unfold PrettyError_headerBuffer, make_http_Header. simpl.
    by rewrite deref_insert_eq.
  - unfold sink_io in Hio. injection Hio as Hi1 Hi2 Hi3 Hi4 Hi5 Hi6 Hi7 Hi8. done.
Qed.

Lemma X11_transparent_when_nothing_matches_witness :
  let p := Do (OpHeader late_header)
              (fun _ => Do (OpWrite oops) (fun _ => Do OpHijack (fun _ => after_503))) in
  rw_written (sink (run PrettyError.step p (PrettyError.newCodeCatcher [] full_world)).2)
    = rw_written (sink (run sink_step p full_world))
  /\ rw_written (sink (run sink_step p full_world)) = (oops ++ oops)%list.
Proof.
  cbv zeta. split; [|reflexivity].
  refine (proj1 (X11_transparent_when_nothing_matches [] full_world _ _ _ _ _ _)).
  - intros c. reflexivity.
  - reflexivity.
  - reflexivity.
  - apply elem_of_dom. exists ∅. reflexivity.
  - reflexivity.
Defined.

(** ** [Write] once committed *)

(** X12.  Once the internal interceptor has committed, [Write] is the
    sink's [Write]: at every state reached from the constructor with
    [headersSent] set, the caller gets the sink's own answer, error
    included, the sink is handed exactly the buffer, and the interceptor is
    unchanged. *)
Theorem X12_committed_Write_is_the_sinks
    (R : HTTPCodeRanges) (w : World) (p : Prog Op Answer) (buf : list byte) :
  let s := run PrettyError.step p (PrettyError.newCodeCatcher R w) in
  PrettyError.headersSent s.1 = true ->
  PrettyError.Write buf s.1 s.2 = (rw_write (sink s.2) buf, s.1, (sink_Write buf s.2).2).
Proof.
  cbv zeta. intros Hs.
  pose proof (run_invariant PrettyError.step
                (fun s => PrettyError.headersSent s.1 && PrettyError.caughtFilteredCode s.1 = false)
                PrettyError_step_flags p (PrettyError.newCodeCatcher R w) eq_refl) as Hf.
  simpl in Hf. rewrite Hs in Hf. simpl in Hf.
  unfold PrettyError.Write. rewrite PrettyError_WriteHeader_closed by (by rewrite Hs).
  by rewrite Hf.
Qed.

Lemma X12_committed_Write_is_the_sinks_witness :
  let s := run PrettyError.step commits (PrettyError.newCodeCatcher server_errors broken_world) in
  (PrettyError.Write oops s.1 s.2).1.1 = (0, Some "broken pipe")
  /\ rw_written (sink (PrettyError.Write oops s.1 s.2).2) = oops.
Proof.
  cbv zeta.
  rewrite (X12_committed_Write_is_the_sinks server_errors broken_world commits oops eq_refl).
  split; reflexivity.
Defined.

(** ** [SetContent] and the buffer of the exported interceptor *)

Lemma Httputil_WriteHeader_fields c cc w :
  Httputil.wroteHeader (Httputil.WriteHeader c cc w).1 = Httputil.wroteHeader cc
  /\ Httputil.buffer (Httputil.WriteHeader c cc w).1 = Httputil.buffer cc
  /\ Httputil.lastModified (Httputil.WriteHeader c cc w).1 = Httputil.lastModified cc.
Proof.
  destruct (Httputil_WriteHeader_cases c cc w) as [[_ ->]|[[Ho H]|[Ho H]]]; [done| |].
  - by rewrite Httputil_WriteHeader_caught.
  - rewrite Httputil_WriteHeader_commit by done.
    destruct (Httputil.Header _ _) as [[l cc'] w'] eqn:E.
    by apply Httputil_Header_spec in E as (-> & _).
Qed.

Lemma Httputil_xstep_wroteHeader cu o s :
  Httputil.wroteHeader (Httputil.xstep cu o s).2.1 = Httputil.wroteHeader s.1.
Proof.
  destruct s as [cc w]. cbn [fst snd].
  destruct o as [[f|c|buf| |]|f| |data|value| ]; simpl; try done.
  - destruct (Httputil.Header cc w) as [[l cc'] w'] eqn:E.
    by apply Httputil_Header_spec in E as (-> & _).
  - apply Httputil_WriteHeader_fields.
  - unfold Httputil.Write.
    pose proof (Httputil_WriteHeader_fields (Httputil.code cc) cc w) as [H _].
    destruct (Httputil.WriteHeader _ cc w) as [cc' w'].
    unfold sink_Write. by destruct (rw_write _ _).
  - unfold Httputil.Flush.
    pose proof (Httputil_WriteHeader_fields (Httputil.code cc) cc w) as [H _].
    by destruct (Httputil.WriteHeader _ cc w) as [cc' w'].
  - unfold Httputil.Hijack. by destruct (sink_Hijack w).
  - unfold Httputil.GetContent. by destruct (Decode _ _ _).
  - unfold Httputil.SetContent. destruct (Encode _ _ _) as [bodyBytes e].
    pose proof (Httputil_WriteHeader_fields 200 cc w) as [H _].
    destruct (negb _); [destruct (Httputil.WriteHeader 200 cc w) as [cc' w']|];
      unfold sink_Write; by destruct (rw_write _ _) as [n [e'|]].
Qed.

(** X13.  Nothing sets [wroteHeader]: it is false at every state the
    exported interceptor reaches from its constructor, so [SetContent]
    always begins with the status-setting call for 200 and leaves the
    interceptor with its transition made. *)
Theorem X13_SetContent_always_sets_status
    (R : HTTPCodeRanges) (w : World) (cu : Compressutil)
    (q : Prog Httputil.XOp Httputil.XAnswer) (data : list byte) :
  let s := run (Httputil.xstep cu) q (Httputil.NewCodeCatcher R w) in
  let t := Httputil.WriteHeader 200 s.1 s.2 in
  Httputil.wroteHeader s.1 = false
  /\ (Httputil.SetContent cu data s.1 s.2).1 = t.1
  /\ Httputil.headersSent t.1 || Httputil.caughtFilteredCode t.1 = true.
Proof.
  cbv zeta.
  pose proof (run_invariant (Httputil.xstep cu) (fun s => Httputil.wroteHeader s.1 = false)
                (fun o s H => eq_trans (Httputil_xstep_wroteHeader cu o s) H)
                q (Httputil.NewCodeCatcher R w) eq_refl) as Hw.
  simpl in Hw. split; [exact Hw|]. split; [|apply Httputil_WriteHeader_closes].
  unfold Httputil.SetContent. rewrite Hw. cbn [negb].
  destruct (Encode _ _ _) as [bodyBytes e].
  destruct (Httputil.WriteHeader 200 _ _) as [cc' w'].
  unfold sink_Write. by destruct (rw_write _ _) as [n [e'|]].
Qed.

(** X14.  On a filtered exported interceptor [SetContent] hands the sink
    the encoder's bytes and nothing else: no status call is made, the heap
    (the sink's header map and the buffered headers) is as it was, and the
    interceptor is unchanged. *)
Theorem X14_SetContent_when_filtered_sends_body_without_status
    (cu : Compressutil) (data : list byte) (cc : Httputil.CodeCatcher) (w : World) :
  Httputil.caughtFilteredCode cc = true ->
  let t := Httputil.SetContent cu data cc w in
  t.1 = cc
  /\ rw_codes (sink t.2) = rw_codes (sink w)
  /\ heap t.2 = heap w
  /\ rw_written (sink t.2) =
       (rw_written (sink w) ++ (Encode cu data (Httputil.getContentEncoding w)).1)%list.
Proof.
  intros Hc. cbv zeta. unfold Httputil.SetContent.
  destruct (Encode _ _ _) as [bodyBytes e].
  rewrite Httputil_WriteHeader_closed by (rewrite Hc; apply orb_true_r).
  destruct (negb _); unfold sink_Write; by destruct (rw_write _ _) as [n [e'|]].
Qed.

Lemma X14_SetContent_when_filtered_sends_body_without_status_witness :
  let t := Httputil.SetContent identity_codec rewritten_body caught_503.1 caught_503.2 in
  rw_codes (sink t.2) = [] /\ rw_written (sink t.2) = rewritten_body.
Proof.
  cbv zeta.
  pose proof (X14_SetContent_when_filtered_sends_body_without_status identity_codec
                rewritten_body caught_503.1 caught_503.2 eq_refl) as (_ & H1 & _ & H2).
  split; [exact H1 | exact H2].
Defined.

Lemma Httputil_step_buffer o s :
  Httputil.buffer (Httputil.step o s).2.1 = Httputil.buffer s.1.
Proof.
  destruct s as [cc w]. cbn [fst snd]. destruct o as [f|c|buf| |]; simpl.
  - destruct (Httputil.Header cc w) as [[l cc'] w'] eqn:E.
    by apply Httputil_Header_spec in E as (-> & _).
  - apply Httputil_WriteHeader_fields.
  - unfold Httputil.Write.
    pose proof (Httputil_WriteHeader_fields (Httputil.code cc) cc w) as (_ & H & _).
    destruct (Httputil.WriteHeader _ cc w) as [cc' w'].
    unfold sink_Write. by destruct (rw_write _ _).
  - unfold Httputil.Flush.
    pose proof (Httputil_WriteHeader_fields (Httputil.code cc) cc w) as (_ & H & _).
    by destruct (Httputil.WriteHeader _ cc w) as [cc' w'].
  - unfold Httputil.Hijack. by destruct (sink_Hijack w).
Qed.

(** X15.  No call of a handler fills the buffer of the exported
    interceptor: after any handler run on it from the constructor the
    buffer is empty, whatever was written, and [GetContent] returns what
    the decoder returns for an empty buffer. *)
Theorem X15_handler_never_fills_buffer
    (R : HTTPCodeRanges) (w : World) (cu : Compressutil) (p : Prog Op Answer) :
  let s := run Httputil.step p (Httputil.NewCodeCatcher R w) in
  Httputil.buffer s.1 = []
  /\ (Httputil.GetContent cu s.1 s.2).1.1 = (Decode cu [] (Httputil.getContentEncoding s.2)).1.
Proof.
  cbv zeta.
  pose proof (run_invariant Httputil.step (fun s => Httputil.buffer s.1 = [])
                (fun o s H => eq_trans (Httputil_step_buffer o s) H)
                p (Httputil.NewCodeCatcher R w) eq_refl) as Hb.
  simpl in Hb. split; [exact Hb|].
  unfold Httputil.GetContent. rewrite Hb. by destruct (Decode _ _ _).
Qed.

(** ** The headers the exported interceptor consults *)

Lemma Httputil_step_headersSent_mono o cc w :
  Httputil.headersSent cc = true -> Httputil.headersSent (Httputil.step o (cc, w)).2.1 = true.
Proof.
  intros H.
  destruct (Httputil_xstep_closed identity_codec (Httputil.XWriter o) cc w) as (_ & _ & E & _);
    [by rewrite H|].
  cbv zeta in E. unfold Httputil.xstep in E.
  destruct (Httputil.step o (cc, w)) as [a [cc' w']]. cbn [fst snd] in *. congruence.
Qed.

Lemma Httputil_run_sink_headers (p : Prog Op Answer) cc w :
  separate (Httputil.headerMap cc) w ->
  let s := run Httputil.step p (cc, w) in
  Httputil.headersSent s.1 = false -> sink_headers s.2 = sink_headers w.
Proof.
  intros Hsep. cbv zeta.
  cut (separate (Httputil.headerMap (run Httputil.step p (cc, w)).1) (run Httputil.step p (cc, w)).2
       /\ (Httputil.headersSent (run Httputil.step p (cc, w)).1 = false ->
           sink_headers (run Httputil.step p (cc, w)).2 = sink_headers w)); [tauto|].
  apply (run_invariant Httputil.step
           (fun s => separate (Httputil.headerMap s.1) s.2
                     /\ (Httputil.headersSent s.1 = false -> sink_headers s.2 = sink_headers w)));
    [|done].
  clear. intros o [cc' w'] (Hsep & Hu). cbn [fst snd] in *.
  split; [by apply (Httputil_step_separate o (cc', w'))|].
  intros Hun.
  assert (Httputil.headersSent cc' = false) as Hun'.
  { destruct (Httputil.headersSent cc') eqn:E; [|done].
    rewrite Httputil_step_headersSent_mono in Hun; done. }
  rewrite Httputil_step_sink_headers; [by apply Hu|done|congruence].
Qed.

(** X16.  The exported interceptor reads the response headers from the
    sink's header map, not from its own buffer: until it commits, whatever
    headers the handler sets through it, [getContentEncoding],
    [SupportsWriting] and [SupportsProcessing] answer as they did on the
    sink before the handler ran. *)
Theorem X16_headers_set_through_interceptor_not_consulted
    (R : HTTPCodeRanges) (w : World) (p : Prog Op Answer) :
  sink_Header w ∈ dom (heap w) ->
  let s := run Httputil.step p (Httputil.NewCodeCatcher R w) in
  Httputil.headersSent s.1 = false ->
  sink_headers s.2 = sink_headers w
  /\ Httputil.getContentEncoding s.2 = Httputil.getContentEncoding w
  /\ Httputil.SupportsWriting s.2 = Httputil.SupportsWriting w
  /\ Httputil.CodeCatcher_SupportsProcessing s.2 = Httputil.CodeCatcher_SupportsProcessing w.
Proof.
  intros Hw. cbv zeta. intros Hun.
  pose proof (separate_alloc w Hw) as Hsep.
  assert (sink_headers (Httputil.NewCodeCatcher R w).2 = sink_headers w) as Hh.
  { unfold sink_headers, sink_Header, make_http_Header. simpl. apply deref_fresh, is_fresh. }
  destruct (Httputil.NewCodeCatcher R w) as [cc0 w0] eqn:E0.
  assert (Httputil.headerMap cc0 = Some (make_http_Header (heap w)).1
          /\ w0 = set_heap (make_http_Header (heap w)).2 w) as (Hm & ->).
  { unfold Httputil.NewCodeCatcher, make_http_Header in E0. by injection E0 as <- <-. }
  rewrite <- Hm in Hsep.
  pose proof (Httputil_run_sink_headers p cc0 _ Hsep Hun) as H.
  cbn [fst snd] in *. rewrite Hh in H.
  unfold Httputil.SupportsWriting, Httputil.CodeCatcher_SupportsProcessing,
    Httputil.getContentEncoding, Httputil.getContentType, Httputil.getSetCookie,
    Httputil.getHeader. by rewrite H.
Qed.

Lemma X16_headers_set_through_interceptor_not_consulted_witness :
  let p := Do (OpHeader (fun h => <["Content-Encoding" := ["gzip"]]> h))
              (fun _ => Do (OpWriteHeader 503) (fun _ => Done)) in
  let s := run Httputil.step p (Httputil.NewCodeCatcher server_errors ok_world) in
  Httputil_headerBuffer s.1 s.2 !! "Content-Encoding" = Some ["gzip"]
  /\ Httputil.getContentEncoding s.2 = "".
Proof.
  cbv zeta. split; [reflexivity|].
  pose proof (X16_headers_set_through_interceptor_not_consulted server_errors ok_world
                (Do (OpHeader (fun h => <["Content-Encoding" := ["gzip"]]> h))
                    (fun _ => Do (OpWriteHeader 503) (fun _ => Done)))) as H.
  destruct H as (_ & H & _).
  - apply elem_of_dom. exists ∅. reflexivity.
  - reflexivity.
  - rewrite H. reflexivity.
Defined.

(** X17.  [SupportsWriting] looks at the first Set-Cookie value only: it
    answers true exactly when that value (the empty string when there is
    none) does not contain "XSRF-TOKEN", whatever the later values are. *)
Theorem X17_SupportsWriting_reads_first_cookie (w : World) (v : string) (rest : list string) :
  (Httputil.SupportsWriting w = true <->
   ~ exists pre post,
       Header_Get (sink_headers w) "Set-Cookie" = (pre ++ "XSRF-TOKEN" ++ post)%string)
  /\ (sink_headers w !! "Set-Cookie" = Some (v :: rest) ->
      Httputil.SupportsWriting w = negb (Contains v "XSRF-TOKEN"))
  /\ (sink_headers w !! "Set-Cookie" = None \/ sink_headers w !! "Set-Cookie" = Some [] ->
      Httputil.SupportsWriting w = true).
Proof.
  unfold Httputil.SupportsWriting, Httputil.getSetCookie, Httputil.getHeader.
  split; [|split].
  - rewrite <- Contains_spec. destruct (Contains _ _); simpl; split; try done;
      intros H; by destruct H.
  - unfold Header_Get. by intros ->.
  - unfold Header_Get. by intros [-> | ->].
Qed.

Lemma X17_SupportsWriting_reads_first_cookie_witness :
  Httputil.SupportsWriting xsrf_second_world = true.
Proof.
  exact (proj1 (proj2 (X17_SupportsWriting_reads_first_cookie xsrf_second_world
                         "a=1" ["XSRF-TOKEN=x"])) eq_refl).
Defined.

(** X18.  The method [SupportsProcessing] of the exported interceptor
    answers true exactly when the sink's Content-Type is empty or contains
    "text" and its Content-Encoding is one of "gzip", "deflate", "identity"
    and the empty string; absent headers count as empty. *)
Theorem X18_CodeCatcher_SupportsProcessing_iff (w : World) :
  let contentType := Header_Get (sink_headers w) "Content-Type" in
  let encoding := Header_Get (sink_headers w) "Content-Encoding" in
  (Httputil.CodeCatcher_SupportsProcessing w = true <->
   (contentType = "" \/ exists pre post, contentType = (pre ++ "text" ++ post)%string)
   /\ (encoding = "gzip" \/ encoding = "deflate" \/ encoding = "identity" \/ encoding = ""))
  /\ (sink_headers w !! "Content-Type" = None ->
      sink_headers w !! "Content-Encoding" = None ->
      Httputil.CodeCatcher_SupportsProcessing w = true).
Proof.
  cbv zeta. unfold Httputil.CodeCatcher_SupportsProcessing, Httputil.getContentType,
    Httputil.getContentEncoding, Httputil.getHeader. split.
  - rewrite <- Contains_spec.
    destruct (String.eqb (Header_Get (sink_headers w) "Content-Type") "") eqn:Et;
      [apply String.eqb_eq in Et | apply String.eqb_neq in Et];
      destruct (Contains (Header_Get (sink_headers w) "Content-Type") "text") eqn:Ec; simpl;
      repeat (match goal with
              | |- context [String.eqb ?a ?b] =>
                  let E := fresh "E" in
                  destruct (String.eqb a b) eqn:E;
                  [apply String.eqb_eq in E | apply String.eqb_neq in E]
              end); split; try done; try tauto; try (intros [[?|?] ?]; done);
      try (intros [_ [?|[?|[?|?]]]]; done).
  - unfold Header_Get. by intros -> ->.
Qed.

Lemma X18_CodeCatcher_SupportsProcessing_iff_witness :
  Httputil.CodeCatcher_SupportsProcessing ok_world = true.
Proof.
  exact (proj2 (X18_CodeCatcher_SupportsProcessing_iff ok_world) eq_refl eq_refl).
Defined.

(** ** Header writes followed by a status *)

Lemma PrettyError_run_header_writes fs k cc w :
  separate (PrettyError.headerMap cc) w ->
  exists cc' w',
    run PrettyError.step (header_writes fs k) (cc, w) = run PrettyError.step k (cc', w')
    /\ separate (PrettyError.headerMap cc') w'
    /\ PrettyError_headerBuffer cc' w' = foldl (fun h f => f h) (PrettyError_headerBuffer cc w) fs
    /\ sink w' = sink w /\ sink_headers w' = sink_headers w
    /\ PrettyError.code cc' = PrettyError.code cc
    /\ PrettyError.httpCodeRanges cc' = PrettyError.httpCodeRanges cc
    /\ PrettyError.headersSent cc' = PrettyError.headersSent cc
    /\ PrettyError.caughtFilteredCode cc' = PrettyError.caughtFilteredCode cc.
Proof.
  revert cc w. induction fs as [|f fs IH]; intros cc w Hsep.
  - exists cc, w. by split_and!.
  - pose proof (PrettyError_OpHeader_effect f cc w Hsep) as (H1 & H2 & H3).
    pose proof (PrettyError_step_separate (OpHeader f) (cc, w) Hsep) as Hsep'.
    assert (PrettyError.code (PrettyError.step (OpHeader f) (cc, w)).2.1 = PrettyError.code cc
            /\ PrettyError.httpCodeRanges (PrettyError.step (OpHeader f) (cc, w)).2.1
               = PrettyError.httpCodeRanges cc
            /\ PrettyError.headersSent (PrettyError.step (OpHeader f) (cc, w)).2.1
               = PrettyError.headersSent cc
            /\ PrettyError.caughtFilteredCode (PrettyError.step (OpHeader f) (cc, w)).2.1
               = PrettyError.caughtFilteredCode cc) as (F1 & F2 & F3 & F4).
    { simpl. destruct (PrettyError.Header cc w) as [[l cc1] w1] eqn:E.
      by apply PrettyError_Header_spec in E as (-> & _). }
    change (run PrettyError.step (header_writes (f :: fs) k) (cc, w))
      with (let '(a, s') := PrettyError.step (OpHeader f) (cc, w) in
            run PrettyError.step (header_writes fs k) s').
    destruct (PrettyError.step (OpHeader f) (cc, w)) as [a [cc1 w1]]. cbn [fst snd] in *.
    destruct (IH cc1 w1 Hsep') as (cc' & w' & E & Hs & Hb & G1 & G2 & G3 & G4 & G5 & G6).
    exists cc', w'. rewrite E, Hb, H3, G1, G2, G3, G4, G5, G6. by split_and!.
Qed.

(** X19.  Header updates made through the internal interceptor before the
    first status all sit in the private buffer; a status in no range then
    hands the sink that status and appends the buffer to the sink's header
    map, while a status in a range hands the sink no status and leaves its
    header map as it was. *)
Theorem X19_buffered_headers_follow_the_status
    (R : HTTPCodeRanges) (w : World) (fs : list (http_Header -> http_Header)) (c : Z) :
  sink_Header w ∈ dom (heap w) ->
  let s := run PrettyError.step (header_writes fs (Do (OpWriteHeader c) (fun _ => Done)))
             (PrettyError.newCodeCatcher R w) in
  let buffered := foldl (fun h f => f h) ∅ fs in
  PrettyError_headerBuffer s.1 s.2 = buffered
  /\ PrettyError.getCode s.1 = c
  /\ if existsb (inRange c) R
     then PrettyError.isFilteredCode s.1 = true
          /\ rw_codes (sink s.2) = rw_codes (sink w)
          /\ sink_headers s.2 = sink_headers w
     else PrettyError.headersSent s.1 = true
          /\ rw_codes (sink s.2) = (rw_codes (sink w) ++ [c])%list
          /\ sink_headers s.2 = CopyHeaders (sink_headers w) buffered.
Proof.
  intros Hw. cbv zeta.
  pose proof (separate_alloc w Hw) as Hsep.
  assert (sink_headers (PrettyError.newCodeCatcher R w).2 = sink_headers w) as Hh.
  { unfold sink_headers, sink_Header, make_http_Header. simpl. apply deref_fresh, is_fresh. }
  assert (PrettyError_headerBuffer (PrettyError.newCodeCatcher R w).1
            (PrettyError.newCodeCatcher R w).2 = ∅) as Hb0.
  { unfold PrettyError_headerBuffer, make_http_Header. simpl. by rewrite deref_insert_eq. }
  destruct (PrettyError.newCodeCatcher R w) as [cc0 w0] eqn:E0.
  assert (PrettyError.headerMap cc0 = Some (make_http_Header (heap w)).1
          /\ w0 = set_heap (make_http_Header (heap w)).2 w
          /\ PrettyError_open cc0 /\ PrettyError.httpCodeRanges cc0 = R
          /\ sink w0 = sink w) as (Hm & Hw0 & Ho & HR & Hs0).
  { unfold PrettyError.newCodeCatcher, make_http_Header in E0. by injection E0 as <- <-. }
  cbn [fst snd] in *. rewrite <- Hw0, <- Hm in Hsep.
  destruct (PrettyError_run_header_writes fs (Do (OpWriteHeader c) (fun _ => Done)) cc0 w0 Hsep)
    as (cc' & w' & -> & Hsep' & Hb & G1 & G2 & G3 & G4 & G5 & G6).
  rewrite Hb0 in Hb. rewrite Hh in G2.
  assert (PrettyError_open cc') as Ho' by (destruct Ho; split; congruence).
  change (run PrettyError.step (Do (OpWriteHeader c) (fun _ => Done)) (cc', w'))
    with (PrettyError.WriteHeader c cc' w').
  split; [by rewrite PrettyError_WriteHeader_buffer|].
  rewrite <- HR, <- G4.
  destruct (existsb (inRange c) (PrettyError.httpCodeRanges cc')) eqn:E.
  - rewrite PrettyError_WriteHeader_caught by done. simpl. by rewrite G1, Hs0.
  - split.
    { rewrite PrettyError_WriteHeader_commit by done.
      destruct (PrettyError.Header _ _) as [[l cc1] w1] eqn:E1.
      by apply PrettyError_Header_spec in E1 as (-> & _). }
    split.
    { rewrite PrettyError_WriteHeader_commit by done.
      destruct (PrettyError.Header _ _) as [[l cc1] w1] eqn:E1.
      by apply PrettyError_Header_spec in E1 as (-> & _). }
    split.
    { rewrite PrettyError_WriteHeader_commit by done.
      destruct (PrettyError.Header _ _) as [[l cc1] w1] eqn:E1.
      apply PrettyError_Header_spec in E1 as (_ & Hs1 & _). simpl.
      by rewrite Hs1, G1, Hs0. }
    apply map_eq. intros k.
    by rewrite PrettyError_commit_headers, CopyHeaders_lookup, G2, Hb.
Qed.

Lemma X19_buffered_headers_follow_the_status_witness :
  let s := run PrettyError.step
             (header_writes [late_header] (Do (OpWriteHeader 404) (fun _ => Done)))
             (PrettyError.newCodeCatcher server_errors cookie_world) in
  rw_codes (sink s.2) = [404]
  /\ sink_headers s.2 !! "X-Late" = Some ["1"]
  /\ sink_headers s.2 !! "Set-Cookie" = Some ["s=0"].
Proof.
  cbv zeta.
  pose proof (X19_buffered_headers_follow_the_status server_errors cookie_world
                [late_header] 404) as H.
  destruct H as (_ & _ & _ & H1 & H2).
  - apply elem_of_dom. eexists. reflexivity.
  - rewrite H1, H2. repeat split.
Defined.

(** ** [Write], the two interceptors compared *)

(** X20.  The exported [Write] never drops: in every state of the
    interceptor the sink is handed exactly the buffer, after what it had,
    and the caller gets the answer the sink gives for it. *)
Theorem X20_exported_Write_always_forwards
    (buf : list byte) (xc : Httputil.CodeCatcher) (w : World) :
  let r := Httputil.Write buf xc w in
  r.1.1 = rw_write (sink w) buf
  /\ rw_written (sink r.2) = (rw_written (sink w) ++ buf)%list.
Proof.
  cbv zeta. unfold Httputil.Write.
  pose proof (Httputil_WriteHeader_frame (Httputil.code xc) xc w) as (Hw & Hf & _).
  destruct (Httputil.WriteHeader _ xc w) as [xc' w']. simpl in *.
  unfold sink_Write. simpl. by rewrite Hw, Hf.
Qed.

(** X21.  The internal [Write] on a filtered interceptor reports the whole
    buffer as written, with no error, and changes neither the interceptor
    nor the world: nothing is handed to the sink, whatever the sink's own
    [Write] would have answered. *)
Theorem X21_internal_Write_when_filtered_drops
    (buf : list byte) (cc : PrettyError.codeCatcher) (w : World) :
  PrettyError.isFilteredCode cc = true ->
  PrettyError.Write buf cc w = ((Z.of_nat (length buf), None), cc, w).
Proof. apply PrettyError_Write_filtered. Qed.

Lemma X21_internal_Write_when_filtered_drops_witness :
  let s := PrettyError.WriteHeader 503 (PrettyError.newCodeCatcher server_errors broken_world).1
             (PrettyError.newCodeCatcher server_errors broken_world).2 in
  PrettyError.Write oops s.1 s.2 = ((4, None), s.1, s.2).
Proof.
  cbv zeta. apply (X21_internal_Write_when_filtered_drops oops). reflexivity.
Defined.
